(** * better-sse: the per-connection session of [src/Session.ts]

    A shallow embedding of the [Session] class: the frame encoder
    ([writeField], [dispatch], [event], [data], [id], [retry], [comment]),
    the composite [push], the connection lifecycle ([onConnected],
    [onDisconnected], the deferred initialization scheduled by the
    constructor) and the stream adapter ([stream]).

    Strings are [string]s of 8-bit code units; the only characters the code
    under study tells apart are CR, LF, the colon and the hexadecimal digits.
    Everything the session does to its response object and every notification
    it emits is recorded, in program order, in one trace. *)

From Stdlib Require Import String Ascii List ZArith Lia Bool.
From Stdlib Require Import Strings.Byte Numbers.DecimalString.
Import ListNotations.
Open Scope string_scope.

(** ** JavaScript values

    The fragment of JavaScript values that the session inspects: [push] tests
    its first argument for truthiness, tests the second one against
    [undefined] and calls [toString] on the first.  Numbers are the integral
    ones of the safe range, whose [toString()] is the plain decimal numeral. *)
Module JS.

Inductive value : Type :=
| VUndefined
| VNull
| VBool (b : bool)
| VNumber (n : Z)
| VString (s : string)
| VObject (repr : string).   (* an object; [repr] is what its toString() returns *)

(** [Number.prototype.toString()] on an integer.  The numeral is what the
    code writes for the integers that a JavaScript number holds exactly and
    prints without an exponent, those of [safe_integer] below; statements
    about the numeral itself carry that bound. *)
Definition number_toString (n : Z) : string :=
  NilEmpty.string_of_int (Z.to_int n).


(** A string is truthy unless it is empty. *)
Definition truthy_string (s : string) : bool :=
  match s with
  | EmptyString => false
  | String _ _ => true
  end.

(** ToBoolean. *)
Definition truthy (v : value) : bool :=
  match v with
  | VUndefined | VNull => false
  | VBool b => b
  | VNumber n => negb (n =? 0)%Z
  | VString s => truthy_string s
  | VObject _ => true
  end.

(** [typeof v === "undefined"]. *)
Definition is_undefined (v : value) : bool :=
  match v with
  | VUndefined => true
  | _ => false
  end.

(** [v.toString()]; [None] is the TypeError raised on [null] and
    [undefined], which have no properties. *)
Definition toString (v : value) : option string :=
  match v with
  | VUndefined | VNull => None
  | VBool true => Some "true"
  | VBool false => Some "false"
  | VNumber n => Some (number_toString n)
  | VString s => Some s
  | VObject repr => Some repr
  end.

End JS.

(** ** Line breaks *)

Definition CR : ascii := "013"%char.
Definition LF : ascii := "010"%char.

(** The one-character string written as a backslash-n escape in the source. *)
Definition NL : string := String LF EmptyString.

Definition is_CR (c : ascii) : bool := Ascii.eqb c CR.
Definition is_LF (c : ascii) : bool := Ascii.eqb c LF.

(** ** The default sanitizer *)
Module Lib.

(** Modelled from the spec: the first pass of the default sanitizer of
    [src/lib/sanitize.ts], which is imported by [Session.ts] but is not among
    the sources.  Every occurrence of CRLF, CR or LF is replaced with one LF;
    the scan goes left to right and a CR directly followed by an LF is one
    occurrence (CRLF), not two. *)
Fixpoint replace_newlines (text : string) : string :=
  match text with
  | EmptyString => EmptyString
  | String c rest =>
      if is_CR c then
        match rest with
        | String c' rest' =>
            if is_LF c' then String LF (replace_newlines rest')
            else String LF (replace_newlines rest)
        | EmptyString => String LF EmptyString
        end
      else if is_LF c then String LF (replace_newlines rest)
      else String c (replace_newlines rest)
  end.

(** Modelled from the spec: the second pass of the default sanitizer of
    [src/lib/sanitize.ts] (not among the sources), which strips every LF from
    the end of the string. *)
Fixpoint strip_trailing_newlines (text : string) : string :=
  match text with
  | EmptyString => EmptyString
  | String c rest =>
      match strip_trailing_newlines rest with
      | EmptyString => if is_LF c then EmptyString else String c EmptyString
      | String _ _ as kept => String c kept
      end
  end.

(** Modelled from the spec: the default export of [src/lib/sanitize.ts] (not
    among the sources): replace every occurrence of CR, LF or CRLF with a
    single LF, then strip any LF from the end of the result. *)
Definition sanitize (text : string) : string :=
  strip_trailing_newlines (replace_newlines text).

End Lib.

(** Observations on a sanitized string. *)

Fixpoint contains_CR (s : string) : bool :=
  match s with
  | EmptyString => false
  | String c rest => is_CR c || contains_CR rest
  end.

Fixpoint contains_LF (s : string) : bool :=
  match s with
  | EmptyString => false
  | String c rest => is_LF c || contains_LF rest
  end.


(** The last character is an LF. *)
Fixpoint ends_with_LF (s : string) : bool :=
  match s with
  | EmptyString => false
  | String c EmptyString => is_LF c
  | String _ rest => ends_with_LF rest
  end.

(** The characters that are not line breaks, in order. *)
Fixpoint visible (s : string) : string :=
  match s with
  | EmptyString => EmptyString
  | String c rest =>
      if is_CR c || is_LF c then visible rest else String c (visible rest)
  end.

(** ** Hexadecimal encoding of a buffer *)
Module Hex.

(** One lowercase hexadecimal digit. *)
Definition digit (n : N) : ascii :=
  match n with
  | 0 => "0" | 1 => "1" | 2 => "2" | 3 => "3" | 4 => "4"
  | 5 => "5" | 6 => "6" | 7 => "7" | 8 => "8" | 9 => "9"
  | 10 => "a" | 11 => "b" | 12 => "c" | 13 => "d" | 14 => "e"
  | _ => "f"
  end%N%char.

(** [Buffer.toString("hex")]: two digits per byte, high nibble first. *)
Fixpoint encode (buf : list byte) : string :=
  match buf with
  | [] => EmptyString
  | b :: rest =>
      String (digit (Byte.to_N b / 16)) (String (digit (Byte.to_N b mod 16)) (encode rest))
  end.

(** The character class [0-9a-f]. *)
Definition is_lower_hex (c : ascii) : bool :=
  let n := N_of_ascii c in
  ((48 <=? n) && (n <=? 57) || (97 <=? n) && (n <=? 102))%N.

Fixpoint all_lower_hex (s : string) : bool :=
  match s with
  | EmptyString => true
  | String c rest => is_lower_hex c && all_lower_hex rest
  end.

(** The regular expression [/^[0-9a-f]{8}$/]. *)
Definition matches_hex8 (s : string) : bool :=
  (String.length s =? 8)%nat && all_lower_hex s.

(** Reading two digits back as a number below 256. *)
Definition value_of_digit (c : ascii) : N :=
  let n := N_of_ascii c in
  (if n <=? 57 then n - 48 else n - 87)%N.

End Hex.

Import JS.

(** ** The transport and the session object *)

(** What the session does to the outside, in program order: the calls on the
    response object [res] and the notifications it emits as an
    [EventEmitter]. *)
Inductive effect : Type :=
| SetHeader (name value : string)   (* res.setHeader(name, value) *)
| SetStatusCode (code : Z)          (* res.statusCode = code *)
| FlushHeaders                      (* res.flushHeaders() *)
| Write (text : string)             (* res.write(text) *)
| Emit (name : string).             (* this.emit(name) *)

(** The part of the request the session reads: the [last-event-id] header,
    [None] when the client sent none. *)
Record IncomingMessage : Type := {
  last_event_id : option string
}.

(** A serializer at its declared type, [(data: unknown) => string]: the
    session is modelled with a serializer that returns a string for every
    payload.  The default one, [JSON.stringify], keeps to the type on every
    value of [JS.value] but [undefined], for which it returns [undefined],
    and the default sanitizer raises on that; a statement that is to hold
    with the default serializer is made for payloads other than
    [undefined]. *)
Definition SerializerFunction : Type := value -> string.
Definition SanitizerFunction : Type := string -> string.

(** [OutgoingHttpHeaders], in the order [Object.entries] lists them; a value
    may be [undefined]. *)
Definition OutgoingHttpHeaders : Type := list (string * option string).

(** [SessionOptions]: every option may be left out ([None]); [retry] may also
    be given as [null] ([Some None]). *)
Record SessionOptions : Type := {
  opt_serializer : option SerializerFunction;
  opt_sanitizer : option SanitizerFunction;
  opt_trustClientEventId : option bool;
  opt_retry : option (option Z);
  opt_statusCode : option Z;
  opt_headers : option OutgoingHttpHeaders
}.

(** [options = {}] *)
Definition no_options : SessionOptions := {|
  opt_serializer := None;
  opt_sanitizer := None;
  opt_trustClientEventId := None;
  opt_retry := None;
  opt_statusCode := None;
  opt_headers := None
|}.

(** [StreamOptions] *)
Record StreamOptions : Type := {
  opt_event : option string
}.

(** The fields of a [Session], followed by its environment: the [trace] of
    effects so far (oldest first) and the process-wide random generator read
    by [randomBytes], as a tape of bytes with the number already [drawn]. *)
Record Session : Type := mkSession {
  lastId : string;
  req : IncomingMessage;
  serialize : SerializerFunction;
  sanitize : SanitizerFunction;
  trustClientEventId : bool;
  initialRetry : option Z;
  statusCode : Z;
  headers : OutgoingHttpHeaders;
  trace : list effect;
  entropy : nat -> byte;
  drawn : nat
}.

(** Appending one effect to the trace. *)
Definition log (a : effect) (s : Session) : Session :=
  mkSession (lastId s) (req s) (serialize s) (sanitize s)
            (trustClientEventId s) (initialRetry s) (statusCode s) (headers s)
            (trace s ++ [a]) (entropy s) (drawn s).

(** [this.lastId = x] *)
Definition set_lastId (x : string) (s : Session) : Session :=
  mkSession x (req s) (serialize s) (sanitize s)
            (trustClientEventId s) (initialRetry s) (statusCode s) (headers s)
            (trace s) (entropy s) (drawn s).

(** [crypto.randomBytes(n)]: the next [n] bytes of the tape. *)
Definition randomBytes (n : nat) (s : Session) : list byte * Session :=
  (map (entropy s) (seq (drawn s) n),
   mkSession (lastId s) (req s) (serialize s) (sanitize s)
             (trustClientEventId s) (initialRetry s) (statusCode s) (headers s)
             (trace s) (entropy s) (drawn s + n)).

(** [this.emit(name)] *)
Definition emit (name : string) (s : Session) : Session :=
  log (Emit name) s.

(** A listener the owner has registered on the session: what it does to the
    session it is called on. *)
Definition Listener : Type := Session -> Session.

Definition no_listener : Listener := fun s => s.

(** [this.emit(name)] with a listener registered for [name]: an
    [EventEmitter] calls its listeners synchronously, before [emit]
    returns. *)
Definition emit_to (listener : Listener) (name : string) (s : Session) : Session :=
  listener (emit name s).

(** ** Frame encoder *)

(** [writeField], lines 157-165. *)
Definition writeField (name value : string) (s : Session) : Session :=
  let sanitized := sanitize s value in
  let text := name ++ ":" ++ sanitized ++ NL in
  log (Write text) s.

(** [dispatch], lines 170-174. *)
Definition dispatch (s : Session) : Session :=
  log (Write NL) s.

(** [event], lines 181-185. *)
Definition event (type : string) (s : Session) : Session :=
  writeField "event" type s.

(** [data], lines 192-198. *)
Definition data (d : value) (s : Session) : Session :=
  let serialized := serialize s d in
  writeField "data" serialized s.

(** [id], lines 207-215; [None] is [null]. *)
Definition id (i : option string) (s : Session) : Session :=
  let stringifed :=
    match i with
    | Some x => if truthy_string x then x else ""
    | None => ""
    end in
  set_lastId stringifed (writeField "id" stringifed s).

(** [retry], lines 222-228. *)
Definition retry (time : Z) (s : Session) : Session :=
  let stringifed := number_toString time in
  writeField "retry" stringifed s.

(** [comment], lines 237-241; [None] is the omitted argument. *)
Definition comment (text : option string) (s : Session) : Session :=
  writeField "" (match text with Some t => t | None => "" end) s.

(** The overload resolution at the head of [push], lines 255-264: the event
    name and the raw data, or [None] when [toString] raises. *)
Definition push_arguments (eventOrData dat : value) : option (string * value) :=
  if truthy eventOrData && is_undefined dat then
    Some ("message", eventOrData)
  else
    match toString eventOrData with
    | Some eventName => Some (eventName, dat)
    | None => None
    end.

(** [push], lines 254-271.  [None] is the TypeError of the overload
    resolution, raised before anything is drawn or written. *)
Definition push (eventOrData dat : value) (s : Session) : option Session :=
  match push_arguments eventOrData dat with
  | None => None
  | Some (eventName, rawData) =>
      let (buf, s1) := randomBytes 4 s in
      let nextId := Hex.encode buf in
      Some (dispatch (data rawData (id (Some nextId) (event eventName s1))))
  end.

(** ** Connection lifecycle *)

(** The [forEach] over [Object.entries(this.headers)], lines 133-135. *)
Definition setHeaders (hs : OutgoingHttpHeaders) (s : Session) : Session :=
  fold_left
    (fun acc entry =>
       let '(name, value) := entry in
       log (SetHeader name (match value with Some v => v | None => "" end)) acc)
    hs s.

(** [onConnected], lines 126-148, on a session whose owner has registered
    the listener [connected] for the connected notification. *)
Definition onConnected_with (connected : Listener) (s : Session) : Session :=
  let s :=
    if trustClientEventId s then
      let givenLastEventId :=
        match last_event_id (req s) with Some h => h | None => "" end in
      set_lastId givenLastEventId s
    else s in
  let s := setHeaders (headers s) s in
  let s := log (SetStatusCode (statusCode s)) s in
  let s := log (SetHeader "Content-Type" "text/event-stream") s in
  let s := log (SetHeader "Cache-Control" "no-cache, no-transform") s in
  let s := log (SetHeader "Connection" "keep-alive") s in
  let s := log FlushHeaders s in
  let s :=
    match initialRetry s with
    | Some n => dispatch (retry n s)
    | None => s
    end in
  emit_to connected "connected" s.

(** [onConnected] with no listener registered. *)
Definition onConnected (s : Session) : Session :=
  onConnected_with no_listener s.

(** [onDisconnected], lines 150-152. *)
Definition onDisconnected (s : Session) : Session :=
  emit "disconnected" s.

Section Constructor.

(** The default export of [src/lib/serialize.ts], which is not among the
    sources; none of the properties below depends on what it returns. *)
Variable default_serialize : SerializerFunction.

(** The field initializers and assignments of the constructor, lines
    92-120, for a process whose random generator will yield [tape]. *)
Definition new_Session (req : IncomingMessage) (options : SessionOptions)
    (tape : nat -> byte) : Session := {|
  lastId := "";
  req := req;
  serialize :=
    match opt_serializer options with Some f => f | None => default_serialize end;
  sanitize :=
    match opt_sanitizer options with Some f => f | None => Lib.sanitize end;
  trustClientEventId :=
    match opt_trustClientEventId options with Some b => b | None => true end;
  initialRetry :=
    match opt_retry options with
    | Some None => None            (* options.retry === null *)
    | Some (Some n) => Some n
    | None => Some 2000%Z          (* options.retry ?? 2000 *)
    end;
  statusCode :=
    match opt_statusCode options with Some c => c | None => 200%Z end;
  headers :=
    match opt_headers options with Some h => h | None => [] end;
  trace := [];
  entropy := tape;
  drawn := 0
|}.

End Constructor.

(** A session in the event loop: [immediate] tells whether the callback
    handed to [setImmediate] by the constructor (line 123) is still waiting. *)
Record World : Type := {
  session : Session;
  immediate : bool
}.

(** [new Session(req, res, options)], lines 104-124: the object just built,
    [onDisconnected] listening for the request's [close] and [onConnected]
    scheduled. *)
Definition construct (default_serialize : SerializerFunction)
    (req : IncomingMessage) (options : SessionOptions) (tape : nat -> byte) : World := {|
  session := new_Session default_serialize req options tape;
  immediate := true
|}.

(** A call of a public method by the owner of the session. *)
Inductive call : Type :=
| CallDispatch
| CallEvent (type : string)
| CallData (d : value)
| CallId (i : option string)
| CallRetry (time : Z)
| CallComment (text : option string)
| CallPush (eventOrData dat : value).

(** The state after the call; a [push] that raises leaves it as it was. *)
Definition invoke (c : call) (s : Session) : Session :=
  match c with
  | CallDispatch => dispatch s
  | CallEvent type => event type s
  | CallData d => data d s
  | CallId i => id i s
  | CallRetry time => retry time s
  | CallComment text => comment text s
  | CallPush eventOrData dat =>
      match push eventOrData dat s with
      | Some s' => s'
      | None => s
      end
  end.

(** What the event loop may run next: the scheduled [onConnected] ([Tick]),
    the [close] notification of the request, or a call by the owner. *)
Inductive input : Type :=
| Tick
| Close
| Call (c : call).

(** One turn of the event loop.  [Tick] can only run while the callback is
    still waiting; [close] runs [onDisconnected] whenever the transport
    emits it; calls are accepted at any time.  The trace records what the
    session asks of the response.  An [http.ServerResponse] carries the
    requests out as recorded as long as the head is set and flushed before
    the first body write; a body write before that sends the head by itself
    and the [setHeader] of a later initialization throws.  Statements about
    the head of the response and about the initialization are therefore made
    for the schedules of [calls_follow_initialization]. *)
Definition exec (i : input) (w : World) : option World :=
  match i with
  | Tick =>
      if immediate w then
        Some {| session := onConnected (session w); immediate := false |}
      else None
  | Close =>
      Some {| session := onDisconnected (session w); immediate := immediate w |}
  | Call c =>
      Some {| session := invoke c (session w); immediate := immediate w |}
  end.

(** The schedules in which the owner calls nothing before the deferred
    initialization has run: flushing the head is the point after which body
    writes are legal. *)
Fixpoint calls_follow_initialization (ins : list input) : bool :=
  match ins with
  | [] => true
  | Tick :: _ => true
  | Close :: rest => calls_follow_initialization rest
  | Call _ :: _ => false
  end.

Fixpoint run (ins : list input) (w : World) : option World :=
  match ins with
  | [] => Some w
  | i :: rest =>
      match exec i w with
      | Some w' => run rest w'
      | None => None
      end
  end.

(** How often a notification occurs in a trace. *)
Fixpoint emitted (name : string) (t : list effect) : nat :=
  match t with
  | [] => 0
  | Emit n :: rest => (if String.eqb n name then 1 else 0) + emitted name rest
  | _ :: rest => emitted name rest
  end.

(** The body writes of a trace, in order. *)
Fixpoint writes (t : list effect) : list string :=
  match t with
  | [] => []
  | Write text :: rest => text :: writes rest
  | _ :: rest => writes rest
  end.

(** What [onConnected] appends to the trace of a session [s]. *)
Definition header_effects (s : Session) : list effect :=
  map (fun entry : string * option string =>
         SetHeader (fst entry) (match snd entry with Some v => v | None => "" end))
      (headers s)
  ++ [SetStatusCode (statusCode s);
      SetHeader "Content-Type" "text/event-stream";
      SetHeader "Cache-Control" "no-cache, no-transform";
      SetHeader "Connection" "keep-alive";
      FlushHeaders].

Definition retry_effects (s : Session) : list effect :=
  match initialRetry s with
  | Some n => [Write ("retry:" ++ sanitize s (number_toString n) ++ NL); Write NL]
  | None => []
  end.

(** Whether a turn of the event loop is a call that goes through [id]:
    [id] itself, or [push], which calls it. *)
Definition calls_id (i : input) : bool :=
  match i with
  | Call (CallId _) | Call (CallPush _ _) => true
  | _ => false
  end.

Definition is_call (i : input) : bool :=
  match i with
  | Call _ => true
  | _ => false
  end.

(** ** Decoding a buffer *)

(** [Buffer.prototype.toString()] decodes UTF-8.  A string being kept as the
    bytes of its UTF-8 form, decoding copies every well-formed sequence and
    puts U+FFFD, the bytes EF BF BD, for every ill-formed one: a byte that
    cannot begin a sequence, or the bytes of a sequence read so far when the
    next one cannot continue it or the buffer ends; the byte that could not
    continue the sequence is read again as the beginning of the next. *)
Module Utf8.

Definition within (lo hi : N) (b : byte) : bool :=
  (lo <=? Byte.to_N b)%N && (Byte.to_N b <=? hi)%N.

(** U+FFFD in UTF-8. *)
Definition replacement : list byte := [xef; xbf; xbd].

(** For the first byte of a sequence of several bytes: how many bytes
    follow, and the bounds of the first of them. *)
Definition lead (b : byte) : option (nat * N * N) :=
  if within 194 223 b then Some (1, 128%N, 191%N)
  else if within 224 239 b then
    Some (2, if within 224 224 b then 160%N else 128%N,
             if within 237 237 b then 159%N else 191%N)
  else if within 240 244 b then
    Some (3, if within 240 240 b then 144%N else 128%N,
             if within 244 244 b then 143%N else 191%N)
  else None.

(** The bytes of the decoded string. *)
Fixpoint scrub (bytes : list byte) : list byte :=
  match bytes with
  | [] => []
  | b :: rest =>
      if within 0 127 b then b :: scrub rest
      else
        match lead b with
        | None => replacement ++ scrub rest
        | Some (needed, lo, hi) =>
            match rest with
            | [] => replacement
            | c1 :: rest1 =>
                if negb (within lo hi c1) then replacement ++ scrub rest
                else
                  match needed with
                  | 1 => b :: c1 :: scrub rest1
                  | _ =>
                      match rest1 with
                      | [] => replacement
                      | c2 :: rest2 =>
                          if negb (within 128 191 c2) then replacement ++ scrub rest1
                          else
                            match needed with
                            | 2 => b :: c1 :: c2 :: scrub rest2
                            | _ =>
                                match rest2 with
                                | [] => replacement
                                | c3 :: rest3 =>
                                    if negb (within 128 191 c3)
                                    then replacement ++ scrub rest2
                                    else b :: c1 :: c2 :: c3 :: scrub rest3
                                end
                            end
                      end
                  end
            end
        end
  end.

Definition decode (bytes : list byte) : string :=
  string_of_list_byte (scrub bytes).

(** Well-formed UTF-8: the byte sequences of table 3-7 of the Unicode
    standard, one after the other. *)
Fixpoint well_formed (bytes : list byte) : bool :=
  match bytes with
  | [] => true
  | b :: rest =>
      if within 0 127 b then well_formed rest
      else
        match rest with
        | [] => false
        | c1 :: rest1 =>
            if within 194 223 b then within 128 191 c1 && well_formed rest1
            else
              match rest1 with
              | [] => false
              | c2 :: rest2 =>
                  if within 224 224 b then
                    within 160 191 c1 && within 128 191 c2 && well_formed rest2
                  else if within 225 236 b || within 238 239 b then
                    within 128 191 c1 && within 128 191 c2 && well_formed rest2
                  else if within 237 237 b then
                    within 128 159 c1 && within 128 191 c2 && well_formed rest2
                  else
                    match rest2 with
                    | [] => false
                    | c3 :: rest3 =>
                        if within 240 240 b then
                          within 144 191 c1 && within 128 191 c2
                          && within 128 191 c3 && well_formed rest3
                        else if within 241 243 b then
                          within 128 191 c1 && within 128 191 c2
                          && within 128 191 c3 && well_formed rest3
                        else if within 244 244 b then
                          within 128 143 c1 && within 128 191 c2
                          && within 128 191 c3 && well_formed rest3
                        else false
                    end
              end
        end
  end.
End Utf8.

(** ** Stream adapter *)

(** A chunk handed to the [data] listener: a [Buffer] or a string. *)
Inductive chunk : Type :=
| Buffer (bytes : list byte)
| Text (s : string).

(** Lines 294-300: a buffer is decoded with [toString()], a string is taken
    as it is. *)
Definition chunk_text (c : chunk) : string :=
  match c with
  | Buffer bytes => Utf8.decode bytes
  | Text s => s
  end.

(** What the producer may emit. *)
Inductive notification : Type :=
| OnData (c : chunk)
| OnEnd
| OnClose
| OnError (err : value).

(** The promise returned by [stream]. *)
Inductive promise : Type :=
| Pending
| Fulfilled (success : bool)
| Rejected (err : value).

(** [resolve] and [reject] settle a pending promise and do nothing to a
    settled one. *)
Definition resolve (success : bool) (p : promise) : promise :=
  match p with
  | Pending => Fulfilled success
  | _ => p
  end.

Definition reject (err : value) (p : promise) : promise :=
  match p with
  | Pending => Rejected err
  | _ => p
  end.

(** A running [stream] call: the session written to, the event name taken
    from the options, the promise, and for each listener registered with
    [once] whether it is still attached. *)
Record Streaming : Type := {
  target : Session;
  event_name : string;
  completion : promise;
  end_attached : bool;
  close_attached : bool;
  error_attached : bool
}.

(** [stream], lines 286-309: the state right after the executor of the
    promise has subscribed the four listeners. *)
Definition stream (options : StreamOptions) (s : Session) : Streaming := {|
  target := s;
  event_name := match opt_event options with Some e => e | None => "stream" end;
  completion := Pending;
  end_attached := true;
  close_attached := true;
  error_attached := true
|}.

(** The listener run by one notification of the producer. *)
Definition notify (n : notification) (st : Streaming) : Streaming :=
  match n with
  | OnData c =>
      let dat := chunk_text c in
      {| target :=
           match push (VString (event_name st)) (VString dat) (target st) with
           | Some s' => s'
           | None => target st
           end;
         event_name := event_name st;
         completion := completion st;
         end_attached := end_attached st;
         close_attached := close_attached st;
         error_attached := error_attached st |}
  | OnEnd =>
      if end_attached st then
        {| target := target st;
           event_name := event_name st;
           completion := resolve true (completion st);
           end_attached := false;
           close_attached := close_attached st;
           error_attached := error_attached st |}
      else st
  | OnClose =>
      if close_attached st then
        {| target := target st;
           event_name := event_name st;
           completion := resolve true (completion st);
           end_attached := end_attached st;
           close_attached := false;
           error_attached := error_attached st |}
      else st
  | OnError err =>
      if error_attached st then
        {| target := target st;
           event_name := event_name st;
           completion := reject err (completion st);
           end_attached := end_attached st;
           close_attached := close_attached st;
           error_attached := false |}
      else st
  end.

(** The notifications of a producer, delivered in emission order. *)
Definition feed (ns : list notification) (st : Streaming) : Streaming :=
  fold_left (fun acc n => notify n acc) ns st.

(** The chunks among the notifications, in emission order. *)
Fixpoint chunks_of (ns : list notification) : list chunk :=
  match ns with
  | [] => []
  | OnData c :: rest => c :: chunks_of rest
  | _ :: rest => chunks_of rest
  end.

(** The first of [end], [close] and [error] settles the promise. *)
Fixpoint first_settlement (ns : list notification) : promise :=
  match ns with
  | [] => Pending
  | OnData _ :: rest => first_settlement rest
  | OnEnd :: _ | OnClose :: _ => Fulfilled true
  | OnError err :: _ => Rejected err
  end.

(** The four writes of one pushed event. *)
Definition pushed_event (s : Session) (type ident : string) (payload : value) : list effect :=
  [Write ("event:" ++ sanitize s type ++ NL);
   Write ("id:" ++ sanitize s ident ++ NL);
   Write ("data:" ++ sanitize s (serialize s payload) ++ NL);
   Write NL].

(** The identifier [push] makes of the four bytes at position [pos] of the
    tape. *)
Definition identifier_at (s : Session) (pos : nat) : string :=
  Hex.encode (map (entropy s) (seq pos 4)).

(** The events of a list of chunks pushed one after the other, the first
    identifier being drawn at position [pos]. *)
Fixpoint chunk_events (s : Session) (type : string) (pos : nat) (cs : list chunk)
    : list effect :=
  match cs with
  | [] => []
  | c :: rest =>
      pushed_event s type (identifier_at s pos) (VString (chunk_text c))
      ++ chunk_events s type (pos + 4) rest
  end.

(** The value [onConnected] leaves in [lastId]. *)
Definition initial_lastId (s : Session) : string :=
  if trustClientEventId s then
    match last_event_id (req s) with Some h => h | None => "" end
  else lastId s.

(** Line 117-118: the reconnection time kept by the constructor. *)
Definition configured_retry (options : SessionOptions) : option Z :=
  match opt_retry options with
  | Some None => None
  | Some (Some n) => Some n
  | None => Some 2000%Z
  end.

Definition is_write (a : effect) : bool :=
  match a with
  | Write _ => true
  | _ => false
  end.

(** The fields fixed at construction, and the tape of the generator. *)
Definition same_configuration (s s' : Session) : Prop :=
  req s' = req s
  /\ serialize s' = serialize s
  /\ sanitize s' = sanitize s
  /\ trustClientEventId s' = trustClientEventId s
  /\ initialRetry s' = initialRetry s
  /\ statusCode s' = statusCode s
  /\ headers s' = headers s
  /\ entropy s' = entropy s.

(** A serializer a caller may pass as the [serializer] option, used in the
    examples: the string form of the value. *)
Definition string_serializer : SerializerFunction :=
  fun v => match toString v with Some t => t | None => "null" end.

(** ** Measures used in the statements *)

(** [k] line feeds. *)
Fixpoint newlines (k : nat) : string :=
  match k with
  | O => EmptyString
  | S k' => String LF (newlines k')
  end.

Fixpoint count_LF (s : string) : nat :=
  match s with
  | EmptyString => 0
  | String c rest => (if is_LF c then 1 else 0) + count_LF rest
  end.

(** The number of line breaks of a text, read left to right, a CR directly
    followed by an LF being one line break. *)
Fixpoint line_breaks (s : string) : nat :=
  match s with
  | EmptyString => 0
  | String c rest =>
      if is_CR c then
        match rest with
        | String c' rest' =>
            if is_LF c' then S (line_breaks rest') else S (line_breaks rest)
        | EmptyString => 1
        end
      else if is_LF c then S (line_breaks rest)
      else line_breaks rest
  end.

(** ** Projections of a trace and of a schedule *)

(** The [close] notifications among the turns of a schedule. *)
Fixpoint closes (ins : list input) : nat :=
  match ins with
  | [] => 0
  | Close :: rest => S (closes rest)
  | _ :: rest => closes rest
  end.

(** The calls of [res.setHeader] in a trace, in order. *)
Fixpoint header_settings (t : list effect) : list (string * string) :=
  match t with
  | [] => []
  | SetHeader name value :: rest => (name, value) :: header_settings rest
  | _ :: rest => header_settings rest
  end.

(** The assignments to [res.statusCode] in a trace, in order. *)
Fixpoint status_settings (t : list effect) : list Z :=
  match t with
  | [] => []
  | SetStatusCode code :: rest => code :: status_settings rest
  | _ :: rest => status_settings rest
  end.

(** The calls of [res.flushHeaders] in a trace. *)
Fixpoint flushes (t : list effect) : nat :=
  match t with
  | [] => 0
  | FlushHeaders :: rest => S (flushes rest)
  | _ :: rest => flushes rest
  end.

(** What follows the first [res.flushHeaders] of a trace. *)
Fixpoint after_flush (t : list effect) : list effect :=
  match t with
  | [] => []
  | FlushHeaders :: rest => rest
  | _ :: rest => after_flush rest
  end.

(** The three headers [onConnected] sets last, lines 138-140. *)
Definition protocol_headers : list (string * string) :=
  [("Content-Type", "text/event-stream");
   ("Cache-Control", "no-cache, no-transform");
   ("Connection", "keep-alive")].

(** The field names the encoder passes to [writeField]: lines 182, 195,
    210, 225 and 238. *)
Definition field_names : list string := ["event"; "data"; "id"; "retry"; ""].

(** A body write of the session: the bare line feed of [dispatch], or a
    field line made by [writeField] from one of the five names and a value
    put through the sanitizer [san]. *)
Definition frame (san : SanitizerFunction) (text : string) : Prop :=
  text = NL
  \/ exists name value, In name field_names /\ text = name ++ ":" ++ san value ++ NL.

(** The same session for another request. *)
Definition with_req (r : IncomingMessage) (s : Session) : Session :=
  mkSession (lastId s) r (serialize s) (sanitize s)
            (trustClientEventId s) (initialRetry s) (statusCode s) (headers s)
            (trace s) (entropy s) (drawn s).

(** What an observer of the session sees: the effects so far, [lastId], and
    whether the initialization is still due. *)
Definition observation (w : World) : list effect * string * bool :=
  (trace (session w), lastId (session w), immediate w).

(** The options with every field given. *)
Definition options_with (ser : option SerializerFunction)
    (san : option SanitizerFunction) (trust : option bool)
    (retry_option : option (option Z)) (status : option Z)
    (hdrs : option OutgoingHttpHeaders) : SessionOptions := {|
  opt_serializer := ser;
  opt_sanitizer := san;
  opt_trustClientEventId := trust;
  opt_retry := retry_option;
  opt_statusCode := status;
  opt_headers := hdrs
|}.

(** [push(type, text)] for each chunk in turn, as calls by the owner. *)
Definition push_each (type : string) (cs : list chunk) (s : Session) : Session :=
  fold_left
    (fun acc c => invoke (CallPush (VString type) (VString (chunk_text c))) acc)
    cs s.

(** The header settings [onConnected] makes for a session: the caller's
    headers in order, an [undefined] value as the empty string, then the
    three of the protocol. *)
Definition headers_sent (s : Session) : list (string * string) :=
  (map (fun entry : string * option string =>
          (fst entry, match snd entry with Some v => v | None => "" end))
       (headers s)
   ++ protocol_headers)%list.

(** The state of the response head in a world: nothing set and nothing
    flushed while the initialization is due; afterwards the headers and the
    status set once, one flush, and nothing set after it. *)
Definition response_head (w : World) : Prop :=
  header_settings (trace (session w))
  = (if immediate w then [] else headers_sent (session w))
  /\ status_settings (trace (session w))
     = (if immediate w then [] else [statusCode (session w)])
  /\ flushes (trace (session w)) = (if immediate w then 0 else 1)
  /\ header_settings (after_flush (trace (session w))) = []
  /\ status_settings (after_flush (trace (session w))) = [].

(** The same session with another trace. *)
Definition retrace (t : list effect) (s : Session) : Session :=
  mkSession (lastId s) (req s) (serialize s) (sanitize s)
            (trustClientEventId s) (initialRetry s) (statusCode s) (headers s)
            t (entropy s) (drawn s).

(** A schedule without its [close] notifications. *)
Fixpoint drop_closes (ins : list input) : list input :=
  match ins with
  | [] => []
  | Close :: rest => drop_closes rest
  | i :: rest => i :: drop_closes rest
  end.

(** A trace without the disconnected notifications. *)
Fixpoint without_disconnected (t : list effect) : list effect :=
  match t with
  | [] => []
  | Emit name :: rest =>
      if String.eqb name "disconnected" then without_disconnected rest
      else Emit name :: without_disconnected rest
  | a :: rest => a :: without_disconnected rest
  end.

(** ** Reading a text as its line breaks *)









(** * Properties *)

(** ** The definitions on small inputs *)

Example sanitize_mixed_breaks :
  Lib.sanitize (String "a" (String CR (String LF (String "b" (String CR
                  (String CR (String "c" (String LF (String CR (String LF ""))))))))))
  = String "a" (String LF (String "b" (String LF (String LF (String "c" ""))))).
Proof. reflexivity. Qed.

Example number_toString_5000 : number_toString 5000 = "5000".
Proof. reflexivity. Qed.

Example number_toString_negative : number_toString (-12) = "-12".
Proof. reflexivity. Qed.

Example hex_encode_four_bytes : Hex.encode [x00; xff; x1a; xb2] = "00ff1ab2".
Proof. reflexivity. Qed.

Example push_arguments_examples :
  push_arguments (VObject "[object Object]") VUndefined
  = Some ("message", VObject "[object Object]")
  /\ push_arguments (VString "custom") (VNumber 1) = Some ("custom", VNumber 1)
  /\ push_arguments (VNumber 3) (VString "x") = Some ("3", VString "x").
Proof. repeat split. Qed.

(** ** The default sanitizer *)






(** Stripping removes line feeds from the end and nothing else. *)
Lemma strip_suffix (s : string) :
  exists k, s = Lib.strip_trailing_newlines s ++ newlines k.
Proof.
  induction s as [|c s [k IH]].
  - exists 0. reflexivity.
  - simpl. destruct (Lib.strip_trailing_newlines s) as [|a kept] eqn:E.
    + destruct (is_LF c) eqn:Hc.
      * exists (S k). apply Ascii.eqb_eq in Hc. subst c. simpl. now rewrite IH at 1.
      * exists k. simpl. now rewrite IH at 1.
    + exists k. simpl. now rewrite IH at 1.
Qed.

Lemma strip_clean (s : string) :
  contains_LF s = false -> Lib.strip_trailing_newlines s = s.
Proof.
  induction s as [|c s IH]; [reflexivity|].
  simpl. intro H. apply orb_false_iff in H as [Hc Hs].
  rewrite (IH Hs). destruct s; [now rewrite Hc | reflexivity].
Qed.

Lemma replace_clean (s : string) :
  contains_CR s = false -> Lib.replace_newlines s = s.
Proof.
  induction s as [|c s IH]; [reflexivity|].
  simpl. intro H. apply orb_false_iff in H as [Hc Hs].
  rewrite Hc, (IH Hs).
  destruct (is_LF c) eqn:E; [|reflexivity].
  apply Ascii.eqb_eq in E. now subst c.
Qed.

(** A value without line breaks goes through the default sanitizer as it
    is. *)
Lemma sanitize_clean (s : string) :
  contains_CR s = false -> contains_LF s = false -> Lib.sanitize s = s.
Proof.
  intros HCR HLF. unfold Lib.sanitize.
  rewrite (replace_clean s HCR). now apply strip_clean.
Qed.

(** The first pass writes one LF per line break of the input. *)
Lemma replace_newlines_count_aux (s : string) :
  count_LF (Lib.replace_newlines s) = line_breaks s
  /\ forall c, count_LF (Lib.replace_newlines (String c s)) = line_breaks (String c s).
Proof.
  induction s as [|c' s [IH1 IH2]].
  - split; [reflexivity|]. intro c. simpl.
    destruct (is_CR c) eqn:Hc; [reflexivity|].
    destruct (is_LF c) eqn:Hl; simpl; [reflexivity|]. now rewrite Hl.
  - split; [apply IH2|]. intro c.
    change (Lib.replace_newlines (String c (String c' s))) with
      (if is_CR c then
         if is_LF c' then String LF (Lib.replace_newlines s)
         else String LF (Lib.replace_newlines (String c' s))
       else if is_LF c then String LF (Lib.replace_newlines (String c' s))
       else String c (Lib.replace_newlines (String c' s))).
    change (line_breaks (String c (String c' s))) with
      (if is_CR c then
         if is_LF c' then S (line_breaks s) else S (line_breaks (String c' s))
       else if is_LF c then S (line_breaks (String c' s))
       else line_breaks (String c' s)).
    destruct (is_CR c) eqn:Hc.
    + destruct (is_LF c');
        change (count_LF (String LF ?x)) with (S (count_LF x));
        f_equal; [exact IH1 | apply IH2].
    + destruct (is_LF c) eqn:Hl.
      * change (count_LF (String LF ?x)) with (S (count_LF x)). f_equal. apply IH2.
      * simpl count_LF at 1. rewrite Hl. apply IH2.
Qed.

(** The first pass keeps every character that is not a line break, in
    order. *)
Lemma replace_newlines_visible_aux (s : string) :
  visible (Lib.replace_newlines s) = visible s
  /\ forall c, visible (Lib.replace_newlines (String c s)) = visible (String c s).
Proof.
  induction s as [|c' s [IH1 IH2]].
  - split; [reflexivity|]. intro c. simpl.
    destruct (is_CR c) eqn:Hc; [reflexivity|].
    destruct (is_LF c) eqn:Hl; simpl; [reflexivity|]. now rewrite Hc, Hl.
  - split; [apply IH2|]. intro c.
    change (Lib.replace_newlines (String c (String c' s))) with
      (if is_CR c then
         if is_LF c' then String LF (Lib.replace_newlines s)
         else String LF (Lib.replace_newlines (String c' s))
       else if is_LF c then String LF (Lib.replace_newlines (String c' s))
       else String c (Lib.replace_newlines (String c' s))).
    change (visible (String c (String c' s))) with
      (if is_CR c || is_LF c then visible (String c' s)
       else String c (visible (String c' s))).
    destruct (is_CR c) eqn:Hc.
    + destruct (is_LF c') eqn:Hl';
        change (visible (String LF ?x)) with (visible x); simpl orb; cbv iota.
      * rewrite IH1. simpl. rewrite Hl'. now rewrite orb_true_r.
      * apply IH2.
    + destruct (is_LF c) eqn:Hl; simpl orb; cbv iota.
      * change (visible (String LF ?x)) with (visible x). apply IH2.
      * simpl visible at 1. rewrite Hc, Hl. simpl. f_equal. apply IH2.
Qed.

Lemma visible_app_newlines (s : string) (k : nat) :
  visible (s ++ newlines k) = visible s.
Proof.
  induction s as [|c s IH]; simpl.
  - induction k; [reflexivity | exact IHk].
  - rewrite IH. reflexivity.
Qed.

Lemma sanitize_visible (v : string) : visible (Lib.sanitize v) = visible v.
Proof.
  unfold Lib.sanitize.
  destruct (strip_suffix (Lib.replace_newlines v)) as [k Hk].
  rewrite <- (proj1 (replace_newlines_visible_aux v)).
  rewrite Hk at 2. now rewrite visible_app_newlines.
Qed.








(** ** Hexadecimal identifiers *)

Lemma hex_byte_class (b : byte) :
  Hex.is_lower_hex (Hex.digit (Byte.to_N b / 16)) = true
  /\ Hex.is_lower_hex (Hex.digit (Byte.to_N b mod 16)) = true.
Proof. destruct b; split; vm_compute; reflexivity. Qed.

Lemma hex_byte_no_newline (b : byte) :
  is_CR (Hex.digit (Byte.to_N b / 16)) = false
  /\ is_LF (Hex.digit (Byte.to_N b / 16)) = false
  /\ is_CR (Hex.digit (Byte.to_N b mod 16)) = false
  /\ is_LF (Hex.digit (Byte.to_N b mod 16)) = false.
Proof. destruct b; repeat split; vm_compute; reflexivity. Qed.

(** The two digits of a byte read back give the byte. *)
Lemma hex_byte_decode (b : byte) :
  Byte.of_N (16 * Hex.value_of_digit (Hex.digit (Byte.to_N b / 16))
             + Hex.value_of_digit (Hex.digit (Byte.to_N b mod 16))) = Some b.
Proof. destruct b; vm_compute; reflexivity. Qed.

Lemma hex_encode_length (buf : list byte) :
  String.length (Hex.encode buf) = 2 * List.length buf.
Proof. induction buf as [|b buf IH]; simpl; [reflexivity | rewrite IH; lia]. Qed.

Lemma hex_encode_class (buf : list byte) :
  Hex.all_lower_hex (Hex.encode buf) = true.
Proof.
  induction buf as [|b buf IH]; [reflexivity|].
  destruct (hex_byte_class b) as [Hhi Hlo].
  simpl. now rewrite Hhi, Hlo, IH.
Qed.

Lemma hex_encode_no_newline (buf : list byte) :
  contains_CR (Hex.encode buf) = false /\ contains_LF (Hex.encode buf) = false.
Proof.
  induction buf as [|b buf [IHc IHl]]; [split; reflexivity|].
  destruct (hex_byte_no_newline b) as (H1 & H2 & H3 & H4).
  simpl. now rewrite H1, H2, H3, H4, IHc, IHl.
Qed.

Lemma hex_encode_injective (buf buf' : list byte) :
  Hex.encode buf = Hex.encode buf' -> buf = buf'.
Proof.
  revert buf'. induction buf as [|b buf IH]; intros [|b' buf'] H;
    try reflexivity; try discriminate.
  simpl in H. injection H as Hhi Hlo Hrest.
  f_equal; [|now apply IH].
  pose proof (hex_byte_decode b) as E. rewrite Hhi, Hlo, hex_byte_decode in E.
  now injection E.
Qed.

Lemma identifier_at_matches (s : Session) (pos : nat) :
  Hex.matches_hex8 (identifier_at s pos) = true.
Proof.
  unfold Hex.matches_hex8, identifier_at.
  rewrite hex_encode_length, hex_encode_class, length_map, length_seq.
  reflexivity.
Qed.

Lemma identifier_at_sanitized (s : Session) (pos : nat) :
  Lib.sanitize (identifier_at s pos) = identifier_at s pos.
Proof. apply sanitize_clean; apply hex_encode_no_newline. Qed.

Lemma identifier_at_truthy (s : Session) (pos : nat) :
  truthy_string (identifier_at s pos) = true.
Proof. reflexivity. Qed.

(** ** Frame encoder *)

Lemma trace_writeField (name value : string) (s : Session) :
  trace (writeField name value s)
  = (trace s ++ [Write (name ++ ":" ++ sanitize s value ++ NL)])%list.
Proof. reflexivity. Qed.

Lemma trace_dispatch (s : Session) :
  trace (dispatch s) = (trace s ++ [Write NL])%list.
Proof. reflexivity. Qed.

(** C2: [writeField name value] writes exactly the name, a colon, the
    sanitized value and a line feed; [dispatch] writes exactly one line feed;
    [comment] without argument is [writeField] with the empty name and the
    empty value, which makes the line of a colon and a line feed whenever the
    sanitizer maps the empty string to itself, as the default one does.
    Each of the three makes exactly one write. *)
Theorem C2_wire_format (s : Session) (name value : string) :
  trace (writeField name value s)
  = (trace s ++ [Write (name ++ ":" ++ sanitize s value ++ String "010" "")])%list
  /\ trace (dispatch s) = (trace s ++ [Write (String "010" "")])%list
  /\ comment None s = writeField "" "" s
  /\ trace (comment None s)
     = (trace s ++ [Write (":" ++ sanitize s "" ++ String "010" "")])%list
  /\ (sanitize s "" = "" ->
      trace (comment None s) = (trace s ++ [Write (String ":" (String "010" ""))])%list)
  /\ Lib.sanitize "" = "".
Proof.
  repeat split.
  intro Hempty. unfold comment. rewrite trace_writeField, Hempty. reflexivity.
Qed.

Lemma C2_wire_format_witness :
  let s := new_Session string_serializer {| last_event_id := None |} no_options
             (fun _ => x00) in
  sanitize s "" = ""
  /\ trace (writeField "event" "ping" s) = [Write ("event:ping" ++ NL)]
  /\ trace (comment None s) = [Write (":" ++ NL)].
Proof.
  intro s.
  destruct (C2_wire_format s "event" "ping") as (H1 & _ & _ & _ & H5 & _).
  split; [reflexivity|]. split; [exact H1 | exact (H5 eq_refl)].
Defined.

(** ** The composite [push] *)

Lemma randomBytes_buffer (s : Session) :
  Hex.encode (fst (randomBytes 4 s)) = identifier_at s (drawn s).
Proof. reflexivity. Qed.

(** What [push] does once its arguments are resolved. *)
Lemma push_resolved (eventOrData dat : value) (s : Session)
    (eventName : string) (rawData : value) :
  push_arguments eventOrData dat = Some (eventName, rawData) ->
  push eventOrData dat s
  = Some (dispatch (data rawData (id (Some (identifier_at s (drawn s)))
                                     (event eventName (snd (randomBytes 4 s)))))).
Proof. unfold push. intros ->. reflexivity. Qed.

Lemma push_raises (eventOrData dat : value) (s : Session) :
  push_arguments eventOrData dat = None -> push eventOrData dat s = None.
Proof. unfold push. intros ->. reflexivity. Qed.

(** The overload resolution raises exactly on a first argument that is
    [null] or [undefined]. *)
Lemma push_arguments_defined (eventOrData dat : value) :
  eventOrData <> VUndefined -> eventOrData <> VNull ->
  exists eventName rawData, push_arguments eventOrData dat = Some (eventName, rawData).
Proof.
  intros Hu Hn. unfold push_arguments.
  destruct (truthy eventOrData && is_undefined dat); [eauto|].
  destruct eventOrData as [ | |[]| | | ]; simpl; try contradiction; eauto.
Qed.

Lemma push_arguments_nullish (eventOrData dat : value) :
  eventOrData = VUndefined \/ eventOrData = VNull ->
  push_arguments eventOrData dat = None.
Proof. intros [-> | ->]; reflexivity. Qed.

(** A truthy single argument is the payload of a [message] event. *)
Lemma push_arguments_one_truthy (x : value) :
  truthy x = true -> push_arguments x VUndefined = Some ("message", x).
Proof. unfold push_arguments. intros ->. reflexivity. Qed.

(** With a second argument that is not [undefined], the first one gives the
    event name and the second one is the payload. *)
Lemma push_arguments_two (e d : value) (name : string) :
  d <> VUndefined -> toString e = Some name ->
  push_arguments e d = Some (name, d).
Proof.
  intros Hd He. unfold push_arguments. rewrite He.
  destruct d; try contradiction; now rewrite andb_false_r.
Qed.

(** The effects of a [push] that went through. *)
Lemma push_effects (eventOrData dat : value) (s s' : Session)
    (eventName : string) (rawData : value) :
  push_arguments eventOrData dat = Some (eventName, rawData) ->
  push eventOrData dat s = Some s' ->
  trace s' = (trace s ++ pushed_event s eventName (identifier_at s (drawn s)) rawData)%list
  /\ lastId s' = identifier_at s (drawn s)
  /\ drawn s' = drawn s + 4
  /\ sanitize s' = sanitize s /\ serialize s' = serialize s
  /\ entropy s' = entropy s /\ req s' = req s
  /\ trustClientEventId s' = trustClientEventId s
  /\ initialRetry s' = initialRetry s
  /\ statusCode s' = statusCode s /\ headers s' = headers s.
Proof.
  intros Hargs Hpush. rewrite (push_resolved _ _ _ _ _ Hargs) in Hpush.
  injection Hpush as <-.
  repeat split. simpl. rewrite <- !app_assoc. reflexivity.
Qed.

(** C3, on the code: a single argument that is falsy is not taken as the
    payload of a [message] event.  The test at line 258 asks for a truthy
    first argument, so [push(0)], [push("")] and [push(false)] fall to the
    other branch, which makes the argument the event name and leaves the
    payload [undefined]; [push(null)] raises. *)
Theorem C3_push_falsy_single_argument (s : Session) :
  push_arguments (VNumber 0) VUndefined = Some ("0", VUndefined)
  /\ push_arguments (VString "") VUndefined = Some ("", VUndefined)
  /\ push_arguments (VBool false) VUndefined = Some ("false", VUndefined)
  /\ push VNull VUndefined s = None
  /\ exists s', push (VNumber 0) VUndefined s = Some s'
       /\ trace s' = (trace s ++ pushed_event s "0" (identifier_at s (drawn s)) VUndefined)%list.
Proof.
  repeat split.
  eexists. split; [reflexivity|].
  simpl. rewrite <- !app_assoc. reflexivity.
Qed.

(** The overload resolution at the head of [push] goes through and yields a
    payload other than [undefined] exactly when the first argument is
    neither [null] nor [undefined] and, given alone, is truthy. *)
Lemma push_arguments_payload (eventOrData dat : value) :
  eventOrData <> VUndefined -> eventOrData <> VNull ->
  (dat = VUndefined -> truthy eventOrData = true) ->
  exists eventName rawData,
    push_arguments eventOrData dat = Some (eventName, rawData)
    /\ rawData <> VUndefined.
Proof.
  intros Hu Hn Hone. unfold push_arguments.
  destruct (truthy eventOrData && is_undefined dat) eqn:Hbranch.
  - exists "message", eventOrData. split; [reflexivity | exact Hu].
  - destruct (toString eventOrData) as [name|] eqn:Hname.
    + exists name, dat. split; [reflexivity|].
      intros ->. rewrite (Hone eq_refl) in Hbranch. discriminate.
    + destruct eventOrData as [ | |[]| | | ]; simpl in Hname;
        try discriminate; contradiction.
Qed.

(** C4, as stated, at the calls push(null, "x") and push(undefined, "x"): the
    first argument is falsy, so line 262 calls [toString] on it, which raises
    a TypeError before [randomBytes] is called and before anything is
    written; the call composes nothing and writes no id frame. *)
Lemma C4_push_nullish_raises :
  let s := new_Session string_serializer {| last_event_id := None |} no_options
             (fun _ => x00) in
  push_arguments VNull (VString "x") = None
  /\ push VNull (VString "x") s = None
  /\ push VUndefined (VString "x") s = None.
Proof. repeat split. Qed.

(** C4, amended: every call to [push] whose first argument is neither [null]
    nor [undefined] and, when it is the only argument, is truthy (so that the
    payload is not [undefined]) is [event], [id], [data], [dispatch] in that
    order, and the identifier given to [id] is the hexadecimal form of the
    next four bytes of the random generator, those at positions [drawn s] to
    [drawn s + 3] of its tape: eight characters of the class [0-9a-f], which
    the default sanitizer leaves as they are, and which becomes [lastId].
    The call consumes its four bytes: the next such call on the session
    encodes the four bytes that follow, at [drawn s + 4] to [drawn s + 7],
    and its identifier differs from this one exactly when those four bytes
    differ from these four.  How likely two draws of four bytes are to
    differ is a property of the generator, not of the session. *)
Theorem C4_push_identifier (eventOrData dat : value) (s : Session) :
  eventOrData <> VUndefined -> eventOrData <> VNull ->
  (dat = VUndefined -> truthy eventOrData = true) ->
  let nextId := Hex.encode (fst (randomBytes 4 s)) in
  exists eventName rawData s',
    push_arguments eventOrData dat = Some (eventName, rawData)
    /\ rawData <> VUndefined
    /\ push eventOrData dat s = Some s'
    /\ s' = dispatch (data rawData (id (Some nextId)
                                      (event eventName (snd (randomBytes 4 s)))))
    /\ trace s' = (trace s ++
                   [Write ("event:" ++ sanitize s eventName ++ NL);
                    Write ("id:" ++ sanitize s nextId ++ NL);
                    Write ("data:" ++ sanitize s (serialize s rawData) ++ NL);
                    Write NL])%list
    /\ fst (randomBytes 4 s) = map (entropy s) (seq (drawn s) 4)
    /\ List.length (fst (randomBytes 4 s)) = 4
    /\ Hex.matches_hex8 nextId = true
    /\ Lib.sanitize nextId = nextId
    /\ lastId s' = nextId
    /\ (forall e' d',
          e' <> VUndefined -> e' <> VNull ->
          (d' = VUndefined -> truthy e' = true) ->
          exists s'',
            push e' d' s' = Some s''
            /\ fst (randomBytes 4 s') = map (entropy s) (seq (drawn s + 4) 4)
            /\ lastId s'' = Hex.encode (map (entropy s) (seq (drawn s + 4) 4))
            /\ (lastId s'' = lastId s' <->
                map (entropy s) (seq (drawn s + 4) 4)
                = map (entropy s) (seq (drawn s) 4))).
Proof.
  intros Hu Hn Hone nextId.
  destruct (push_arguments_payload eventOrData dat Hu Hn Hone)
    as (eventName & rawData & Hargs & Hraw).
  pose proof (push_resolved _ _ s _ _ Hargs) as Hres.
  destruct (push eventOrData dat s) as [s'|] eqn:Hpush; [|discriminate].
  injection Hres as Hs'.
  destruct (push_effects _ _ _ _ _ _ Hargs Hpush)
    as (Htrace & Hlast & Hdrawn & _ & _ & Hent & _).
  exists eventName, rawData, s'.
  split; [exact Hargs|]. split; [exact Hraw|].
  split; [reflexivity|]. split; [exact Hs'|].
  split; [exact Htrace|]. split; [reflexivity|]. split; [reflexivity|].
  split; [apply identifier_at_matches|].
  split; [apply identifier_at_sanitized|].
  split; [exact Hlast|].
  intros e' d' Hu' Hn' Hone'.
  destruct (push_arguments_payload e' d' Hu' Hn' Hone')
    as (name' & raw' & Hargs' & _).
  pose proof (push_resolved _ _ s' _ _ Hargs') as Hres'.
  destruct (push e' d' s') as [s''|] eqn:Hpush'; [|discriminate].
  destruct (push_effects _ _ _ _ _ _ Hargs' Hpush') as (_ & Hlast' & _).
  assert (Hnext : identifier_at s' (drawn s')
                  = Hex.encode (map (entropy s) (seq (drawn s + 4) 4)))
    by (unfold identifier_at; now rewrite Hent, Hdrawn).
  exists s''. split; [reflexivity|].
  split; [unfold randomBytes; cbn [fst]; now rewrite Hent, Hdrawn|].
  split; [now rewrite Hlast', Hnext|].
  rewrite Hlast', Hnext, Hlast. unfold identifier_at.
  split; [apply hex_encode_injective | now intros ->].
Qed.

Lemma C4_push_identifier_witness :
  let s := new_Session string_serializer {| last_event_id := None |} no_options
             (fun n => if Nat.ltb n 4 then xc0 else x5e) in
  exists s' s'',
    push (VString "custom") (VNumber 7) s = Some s'
    /\ lastId s' = "c0c0c0c0"
    /\ trace s' = [Write ("event:custom" ++ NL); Write ("id:c0c0c0c0" ++ NL);
                   Write ("data:7" ++ NL); Write NL]
    /\ push (VString "next") VUndefined s' = Some s''
    /\ lastId s'' = "5e5e5e5e".
Proof.
  intro s.
  destruct (C4_push_identifier (VString "custom") (VNumber 7) s)
    as (eventName & rawData & s' & Hargs & _ & Hpush & _ & Htrace & _ & _ & _ & _
        & Hlast & Hnext);
    [discriminate | discriminate | discriminate |].
  injection Hargs as <- <-.
  destruct (Hnext (VString "next") VUndefined) as (s'' & Hpush' & _ & Hlast' & _);
    [discriminate | discriminate | reflexivity |].
  exists s', s''.
  split; [exact Hpush|]. split; [exact Hlast|]. split; [exact Htrace|].
  split; [exact Hpush' | exact Hlast'].
Defined.

(** ** Connection lifecycle *)

(** [setHeaders] only appends to the trace, one [SetHeader] per entry. *)
Lemma setHeaders_spec (hs : OutgoingHttpHeaders) (s : Session) :
  setHeaders hs s
  = mkSession (lastId s) (req s) (serialize s) (sanitize s)
      (trustClientEventId s) (initialRetry s) (statusCode s) (headers s)
      (trace s ++
       map (fun entry : string * option string =>
              SetHeader (fst entry) (match snd entry with Some v => v | None => "" end))
           hs)
      (entropy s) (drawn s).
Proof.
  revert s. induction hs as [|[name value] hs IH]; intro s.
  - destruct s. simpl. now rewrite app_nil_r.
  - unfold setHeaders in *. simpl fold_left. rewrite IH. simpl.
    now rewrite <- app_assoc.
Qed.

(** The record operations on a session given by its fields. *)
Lemma log_mk a l r ser san tr ir sc hs t e d :
  log a (mkSession l r ser san tr ir sc hs t e d)
  = mkSession l r ser san tr ir sc hs (t ++ [a]) e d.
Proof. reflexivity. Qed.

Lemma set_lastId_mk x l r ser san tr ir sc hs t e d :
  set_lastId x (mkSession l r ser san tr ir sc hs t e d)
  = mkSession x r ser san tr ir sc hs t e d.
Proof. reflexivity. Qed.

Ltac fields :=
  cbn [lastId req serialize sanitize trustClientEventId initialRetry statusCode
       headers trace entropy drawn].

(** [onConnected] in one piece: [lastId] is initialized, the effects are the
    headers with the flush, the retry frame if one is configured, and the
    notification last, and the listener is called on the session in that
    state. *)
Lemma onConnected_with_spec (connected : Listener) (s : Session) :
  onConnected_with connected s
  = connected
      (mkSession (initial_lastId s) (req s) (serialize s) (sanitize s)
         (trustClientEventId s) (initialRetry s) (statusCode s) (headers s)
         (trace s ++ header_effects s ++ retry_effects s ++ [Emit "connected"])
         (entropy s) (drawn s)).
Proof.
  unfold onConnected_with, emit_to, initial_lastId, header_effects, retry_effects.
  destruct s as [l r ser san tr ir sc hs t e d]. fields.
  destruct tr; rewrite ?set_lastId_mk; fields; rewrite setHeaders_spec; fields;
    rewrite !log_mk; fields; destruct ir;
    unfold emit, dispatch, retry, writeField; rewrite !log_mk; fields; rewrite ?log_mk;
    f_equal; f_equal; repeat rewrite <- app_assoc; reflexivity.
Qed.

(** [onConnected] in one piece: [lastId] is initialized, the effects are the
    headers with the flush, the retry frame if one is configured, and the
    notification last; nothing else changes. *)
Lemma onConnected_spec (s : Session) :
  onConnected s
  = mkSession (initial_lastId s) (req s) (serialize s) (sanitize s)
      (trustClientEventId s) (initialRetry s) (statusCode s) (headers s)
      (trace s ++ header_effects s ++ retry_effects s ++ [Emit "connected"])
      (entropy s) (drawn s).
Proof. unfold onConnected. now rewrite onConnected_with_spec. Qed.

Lemma same_configuration_refl (s : Session) : same_configuration s s.
Proof. repeat split. Qed.

Lemma same_configuration_trans (s1 s2 s3 : Session) :
  same_configuration s1 s2 -> same_configuration s2 s3 -> same_configuration s1 s3.
Proof.
  unfold same_configuration.
  intros (A1 & A2 & A3 & A4 & A5 & A6 & A7 & A8) (B1 & B2 & B3 & B4 & B5 & B6 & B7 & B8).
  repeat split; congruence.
Qed.

Lemma emitted_app (name : string) (t u : list effect) :
  emitted name (t ++ u) = emitted name t + emitted name u.
Proof.
  induction t as [|a t IH]; [reflexivity|].
  destruct a; simpl; rewrite IH; lia.
Qed.

Lemma writes_app (t u : list effect) : writes (t ++ u) = (writes t ++ writes u)%list.
Proof.
  induction t as [|a t IH]; [reflexivity|].
  destruct a; simpl; now rewrite IH.
Qed.

Lemma emitted_writes (name : string) (t : list effect) :
  forallb is_write t = true -> emitted name t = 0.
Proof.
  induction t as [|a t IH]; [reflexivity|].
  destruct a; simpl; try discriminate. exact IH.
Qed.

Lemma header_effects_quiet (s : Session) :
  writes (header_effects s) = [] /\ forall name, emitted name (header_effects s) = 0.
Proof.
  unfold header_effects. split.
  - rewrite writes_app. simpl. rewrite app_nil_r.
    induction (headers s) as [|h hs IH]; [reflexivity | exact IH].
  - intro name. rewrite emitted_app. simpl. rewrite Nat.add_0_r.
    induction (headers s) as [|h hs IH]; [reflexivity | exact IH].
Qed.

Lemma retry_effects_writes (s : Session) : forallb is_write (retry_effects s) = true.
Proof. unfold retry_effects. destruct (initialRetry s); reflexivity. Qed.

(** A call by the owner only writes to the body: it appends writes to the
    trace, leaves the configuration alone, and changes [lastId] only when it
    is [id] or [push]. *)
Lemma invoke_spec (c : call) (s : Session) :
  same_configuration s (invoke c s)
  /\ (exists added,
        trace (invoke c s) = (trace s ++ added)%list /\ forallb is_write added = true)
  /\ (lastId (invoke c s) <> lastId s -> calls_id (Call c) = true).
Proof.
  destruct c as [ |type|d|i|time|text|e d]; simpl invoke;
    try (split; [repeat split|]; split;
         [eexists; split; [reflexivity|reflexivity] | intro H; try reflexivity; now elim H]).
  destruct (push e d s) as [s'|] eqn:Hpush.
  - destruct (push_arguments e d) as [[name raw]|] eqn:Hargs;
      [|rewrite (push_raises _ _ _ Hargs) in Hpush; discriminate].
    destruct (push_effects _ _ _ _ _ _ Hargs Hpush)
      as (Ht & _ & _ & H1 & H2 & H3 & H4 & H5 & H6 & H7 & H8).
    split; [repeat split; assumption|]. split; [|reflexivity].
    eexists. split; [exact Ht | reflexivity].
  - split; [apply same_configuration_refl|]. split; [|reflexivity].
    exists []. now rewrite app_nil_r.
Qed.

(** One turn of the event loop: what it appends and what it keeps. *)
Lemma exec_spec (i : input) (w w' : World) :
  exec i w = Some w' ->
  same_configuration (session w) (session w')
  /\ (exists added, trace (session w') = (trace (session w) ++ added)%list
        /\ (i <> Tick -> emitted "connected" added = 0)
        /\ (is_call i = true -> forallb is_write added = true)
        /\ (i = Close -> added = [Emit "disconnected"]))
  /\ emitted "connected" (trace (session w')) + (if immediate w' then 1 else 0)
     = emitted "connected" (trace (session w)) + (if immediate w then 1 else 0).
Proof.
  destruct i as [ | |c]; simpl exec.
  - destruct (immediate w) eqn:Him; [|discriminate].
    intros [= <-]. cbn [session immediate]. rewrite onConnected_spec. fields.
    split; [repeat split|]. split.
    + eexists. split; [reflexivity|]. repeat split; intro H; try discriminate. now elim H.
    + rewrite !emitted_app.
      rewrite (proj2 (header_effects_quiet (session w))).
      rewrite (emitted_writes _ _ (retry_effects_writes (session w))).
      simpl. lia.
  - intros [= <-]. cbn [session immediate]. split; [repeat split|]. split.
    + eexists. split; [reflexivity|]. repeat split; intro H; try discriminate; reflexivity.
    + unfold onDisconnected, emit. cbn [trace log]. rewrite emitted_app. simpl. lia.
  - intros [= <-]. cbn [session immediate].
    destruct (invoke_spec c (session w)) as (Hcfg & (added & Ht & Hw) & _).
    split; [exact Hcfg|]. split.
    + exists added. split; [exact Ht|]. repeat split; intro H; try discriminate.
      * now apply emitted_writes.
      * exact Hw.
    + rewrite Ht, emitted_app, (emitted_writes _ _ Hw). lia.
Qed.

Lemma run_app (before after : list input) (w : World) :
  run (before ++ after) w
  = match run before w with
    | Some w' => run after w'
    | None => None
    end.
Proof.
  revert w. induction before as [|i before IH]; intro w; [reflexivity|].
  simpl. destruct (exec i w); [apply IH | reflexivity].
Qed.

(** Over any number of turns the trace only grows, the configuration stays,
    and the notifications emitted plus the one still due stay the same in
    number. *)
Lemma run_spec (ins : list input) (w w' : World) :
  run ins w = Some w' ->
  same_configuration (session w) (session w')
  /\ (exists later, trace (session w') = (trace (session w) ++ later)%list
        /\ (immediate w = false -> emitted "connected" later = 0))
  /\ emitted "connected" (trace (session w')) + (if immediate w' then 1 else 0)
     = emitted "connected" (trace (session w)) + (if immediate w then 1 else 0)
  /\ (immediate w = false -> immediate w' = false).
Proof.
  revert w. induction ins as [|i ins IH]; intro w; simpl.
  - intros [= <-]. split; [apply same_configuration_refl|]. split; [|split; auto].
    exists []. split; [now rewrite app_nil_r | reflexivity].
  - destruct (exec i w) as [w1|] eqn:Hexec; [|discriminate]. intro Hrun.
    destruct (exec_spec _ _ _ Hexec) as (Hcfg1 & (added & Ht1 & Hquiet & _) & Hcount1).
    destruct (IH _ Hrun) as (Hcfg2 & (later & Ht2 & Hquiet2) & Hcount2 & Hstay).
    assert (Hpend : immediate w = false -> immediate w1 = false /\ i <> Tick).
    { intro Hw. destruct i; simpl in Hexec.
      - rewrite Hw in Hexec. discriminate.
      - injection Hexec as <-. split; [exact Hw | discriminate].
      - injection Hexec as <-. split; [exact Hw | discriminate]. }
    split; [eapply same_configuration_trans; eassumption|].
    split; [|split; [lia|]].
    + exists (added ++ later)%list. split.
      * rewrite Ht2, Ht1. now rewrite app_assoc.
      * intro Hw. destruct (Hpend Hw) as [Hw1 Hi].
        rewrite emitted_app, (Hquiet Hi), (Hquiet2 Hw1). reflexivity.
    + intro Hw. apply Hstay. now apply Hpend.
Qed.

(** As long as [onConnected] has not run it is still due, and turns that
    are not calls write nothing and leave [lastId] alone. *)
Lemma run_before_tick (before : list input) (w w' : World) :
  run before w = Some w' ->
  ~ In Tick before ->
  immediate w' = immediate w
  /\ emitted "connected" (trace (session w')) = emitted "connected" (trace (session w))
  /\ (forallb (fun i => negb (is_call i)) before = true ->
      writes (trace (session w')) = writes (trace (session w))
      /\ lastId (session w') = lastId (session w)).
Proof.
  revert w. induction before as [|i before IH]; intro w; simpl.
  - intros [= <-] _. auto.
  - destruct (exec i w) as [w1|] eqn:Hexec; [|discriminate]. intros Hrun Hno.
    assert (Hi : i <> Tick) by (intro E; apply Hno; now left).
    assert (Hno' : ~ In Tick before) by (intro E; apply Hno; now right).
    destruct (IH _ Hrun Hno') as (Him & Hem & Hrest).
    destruct (exec_spec _ _ _ Hexec) as (_ & (added & Ht & Hquiet & _ & Hclose) & _).
    assert (Him1 : immediate w1 = immediate w).
    { destruct i; simpl in Hexec; [now elim Hi | |]; now injection Hexec as <-. }
    split; [congruence|]. split.
    + rewrite Hem, Ht, emitted_app, (Hquiet Hi). lia.
    + intro Hcalls. apply andb_true_iff in Hcalls as [Hc Hcalls].
      destruct (Hrest Hcalls) as [Hw Hl]. rewrite Hw, Hl.
      destruct i; [now elim Hi | | discriminate].
      simpl in Hexec. injection Hexec as <-. split; [|reflexivity].
      cbn [session]. unfold onDisconnected, emit. cbn [trace log].
      rewrite writes_app. simpl. now rewrite app_nil_r.
Qed.

(** A run in which [onConnected] has run splits at that turn. *)
Lemma run_split_tick (ins : list input) (w w' : World) :
  run ins w = Some w' ->
  immediate w = true -> immediate w' = false ->
  exists before after wb,
    ins = (before ++ Tick :: after)%list
    /\ ~ In Tick before
    /\ run before w = Some wb
    /\ immediate wb = true
    /\ run after {| session := onConnected (session wb); immediate := false |} = Some w'.
Proof.
  revert w. induction ins as [|i ins IH]; intro w; simpl.
  - intros [= <-] H1 H2. congruence.
  - destruct (exec i w) as [w1|] eqn:Hexec; [|discriminate]. intros Hrun Hw Hw'.
    destruct i as [ | |c].
    + simpl in Hexec. rewrite Hw in Hexec. injection Hexec as <-.
      exists [], ins, w. repeat split; auto.
    + simpl in Hexec. injection Hexec as <-.
      destruct (IH _ Hrun Hw Hw') as (b & a & wb & -> & Hno & Hb & Hwb & Ha).
      exists (Close :: b), a, wb. repeat split; auto.
      intros [E|E]; [discriminate | now apply Hno].
    + simpl in Hexec. injection Hexec as <-.
      destruct (IH _ Hrun Hw Hw') as (b & a & wb & -> & Hno & Hb & Hwb & Ha).
      exists (Call c :: b), a, wb. repeat split; auto.
      intros [E|E]; [discriminate | now apply Hno].
Qed.

Lemma run_pending_no_tick (before : list input) (w w' : World) :
  run before w = Some w' -> immediate w' = true -> ~ In Tick before.
Proof.
  revert w. induction before as [|i before IH]; intro w; simpl; [tauto|].
  destruct (exec i w) as [w1|] eqn:Hexec; [|discriminate]. intros Hrun Hw' [E|E].
  - subst i. simpl in Hexec. destruct (immediate w); [|discriminate].
    injection Hexec as <-.
    destruct (run_spec _ _ _ Hrun) as (_ & _ & _ & Hstay).
    rewrite (Hstay eq_refl) in Hw'. discriminate.
  - exact (IH _ Hrun Hw' E).
Qed.

(** The session the constructor leaves. *)
Lemma construct_spec (ds : SerializerFunction) (r : IncomingMessage)
    (o : SessionOptions) (tape : nat -> byte) :
  let s := session (construct ds r o tape) in
  immediate (construct ds r o tape) = true
  /\ trace s = [] /\ lastId s = "" /\ req s = r
  /\ initialRetry s = configured_retry o
  /\ trustClientEventId s
     = match opt_trustClientEventId o with Some b => b | None => true end
  /\ sanitize s = match opt_sanitizer o with Some f => f | None => Lib.sanitize end.
Proof. repeat split. Qed.

Lemma header_effects_flush (s : Session) :
  exists settings, header_effects s = (settings ++ [FlushHeaders])%list
                   /\ ~ In FlushHeaders settings.
Proof.
  unfold header_effects.
  eexists (_ ++ [_; _; _; _])%list. split.
  - rewrite <- app_assoc. reflexivity.
  - intro H. apply in_app_or in H as [H|H].
    + apply in_map_iff in H as (entry & E & _). discriminate.
    + simpl in H. repeat destruct H as [H|H]; try discriminate. exact H.
Qed.



(** ** [id] and [lastId] *)

(** C5, as stated, on a session whose client sent a [last-event-id] of 42:
    after construction [lastId] is empty, and the deferred initialization,
    which is no call to [id], sets it to 42. *)
Lemma C5_initialization_sets_lastId :
  let w0 := construct string_serializer {| last_event_id := Some "42" |} no_options
              (fun _ => x00) in
  exists w1,
    exec Tick w0 = Some w1
    /\ calls_id Tick = false
    /\ lastId (session w0) = ""
    /\ lastId (session w1) = "42".
Proof.
  intro w0. eexists. split; [reflexivity|].
  split; [reflexivity|]. split; [reflexivity|].
  cbn [session]. rewrite onConnected_spec. reflexivity.
Qed.

(** C5, amended: [id(null)] writes an [id] field with the empty value and
    sets [lastId] to the empty string; for every string [x], [id(x)] writes
    the field with the sanitized [x] and sets [lastId] to [x] itself; and a
    turn of the event loop changes [lastId] only if it is a call to [id], a
    call to [push] (which calls [id]), or the deferred initialization of a
    session that trusts the client's identifier, which sets it to the
    [last-event-id] header or to the empty string. *)
Theorem C5_id_lastId (s : Session) (x : string) :
  (trace (id None s) = (trace s ++ [Write ("id:" ++ sanitize s "" ++ NL)])%list
   /\ lastId (id None s) = "")
  /\ (trace (id (Some x) s) = (trace s ++ [Write ("id:" ++ sanitize s x ++ NL)])%list
      /\ lastId (id (Some x) s) = x)
  /\ (forall (w w' : World) (i : input),
        exec i w = Some w' ->
        lastId (session w') <> lastId (session w) ->
        calls_id i = true
        \/ (i = Tick
            /\ trustClientEventId (session w) = true
            /\ lastId (session w')
               = match last_event_id (req (session w)) with
                 | Some h => h
                 | None => ""
                 end)).
Proof.
  split; [split; reflexivity|]. split; [destruct x; split; reflexivity|].
  intros w w' [ | |c] Hexec Hchange; simpl in Hexec.
  - destruct (immediate w); [|discriminate]. injection Hexec as <-.
    cbn [session] in *. rewrite onConnected_spec in *. fields. revert Hchange. fields.
    unfold initial_lastId. destruct (trustClientEventId (session w)).
    + intros _. right. auto.
    + intro H. now elim H.
  - injection Hexec as <-. now elim Hchange.
  - injection Hexec as <-. left. cbn [session] in Hchange.
    now apply (invoke_spec c (session w)).
Qed.

Lemma C5_id_lastId_witness :
  let s := new_Session string_serializer {| last_event_id := None |} no_options
             (fun _ => x00) in
  let w := {| session := s; immediate := false |} in
  exists w',
    exec (Call (CallId (Some "7"))) w = Some w'
    /\ lastId (session w') <> lastId (session w)
    /\ (calls_id (Call (CallId (Some "7"))) = true
        \/ (Call (CallId (Some "7")) = Tick
            /\ trustClientEventId s = true
            /\ lastId (session w') = "")).
Proof.
  intros s w. eexists. split; [reflexivity|]. split; [discriminate|].
  exact (proj2 (proj2 (C5_id_lastId s "7")) w _ (Call (CallId (Some "7")))
           eq_refl ltac:(discriminate)).
Defined.

(** ** The connected notification *)

(** In a schedule of [calls_follow_initialization], whatever runs before the
    deferred initialization is a [close] of the request. *)
Lemma closes_before_initialization (before after : list input) :
  calls_follow_initialization (before ++ Tick :: after) = true ->
  ~ In Tick before ->
  Forall (fun i => i = Close) before.
Proof.
  induction before as [|i before IH]; intros Hlegal Hno; [constructor|].
  destruct i as [ | |c].
  - exfalso. apply Hno. now left.
  - constructor; [reflexivity|]. apply IH; [exact Hlegal|].
    intro E. apply Hno. now right.
  - discriminate.
Qed.

Lemma closes_are_no_calls (before : list input) :
  Forall (fun i => i = Close) before ->
  forallb (fun i => negb (is_call i)) before = true.
Proof. induction 1 as [|i before -> _ IH]; [reflexivity | exact IH]. Qed.

(** A schedule whose initialization is still due holds closes only. *)
Lemma closes_while_pending (ins : list input) :
  calls_follow_initialization ins = true ->
  ~ In Tick ins ->
  Forall (fun i => i = Close) ins.
Proof.
  induction ins as [|i ins IH]; intros Hlegal Hno; [constructor|].
  destruct i as [ | |c].
  - exfalso. apply Hno. now left.
  - constructor; [reflexivity|]. apply IH; [exact Hlegal|].
    intro E. apply Hno. now right.
  - discriminate.
Qed.

(** C6: in every run of a session whose owner calls nothing before the
    deferred initialization (flushing the headers is the point after which
    body writes are legal), the connected notification has been emitted once
    if the initialization has run and not at all if it is still due, in which
    case it can run; so it is emitted exactly once.  Before the
    initialization only closes of the request have run, [lastId] is empty and
    nothing is written.  The initialization first initializes [lastId] (from
    the client's header, or the empty string without one, when
    [trustClientEventId] holds; left empty otherwise), then sets and flushes
    the headers and writes the retry frame, and emits the notification as its
    last step: whatever listener is registered for it is called on the
    session as initialized, [lastId] and flushed headers included, and
    nothing of the initialization follows the listener. *)
Theorem C6_connected_exactly_once (ds : SerializerFunction) (r : IncomingMessage)
    (o : SessionOptions) (tape : nat -> byte) (ins : list input) (w : World) :
  calls_follow_initialization ins = true ->
  run ins (construct ds r o tape) = Some w ->
  emitted "connected" (trace (session w)) = (if immediate w then 0 else 1)
  /\ (immediate w = true ->
      exec Tick w = Some {| session := onConnected (session w); immediate := false |})
  /\ (immediate w = false ->
      exists before after s0 s1 settings later,
        ins = (before ++ Tick :: after)%list
        /\ Forall (fun i => i = Close) before
        /\ run before (construct ds r o tape) = Some {| session := s0; immediate := true |}
        /\ lastId s0 = ""
        /\ writes (trace s0) = []
        /\ (forall connected : Listener,
              onConnected_with connected s0 = connected (emit "connected" s1))
        /\ lastId s1
           = (if match opt_trustClientEventId o with Some b => b | None => true end
              then match last_event_id r with Some h => h | None => "" end
              else "")
        /\ trace s1 = (trace s0 ++ settings ++ FlushHeaders :: retry_effects s0)%list
        /\ ~ In FlushHeaders settings
        /\ emitted "connected" (trace s1) = 0
        /\ trace (session w) = (trace s1 ++ Emit "connected" :: later)%list
        /\ emitted "connected" later = 0).
Proof.
  intros Hlegal Hrun.
  destruct (run_spec _ _ _ Hrun) as (_ & _ & Hcount & _).
  simpl in Hcount. split; [destruct (immediate w); lia|].
  split; [intro Hw; simpl; now rewrite Hw|].
  intro Hw.
  destruct (run_split_tick _ _ _ Hrun eq_refl Hw)
    as (before & after & [s0 pend] & -> & Hno & Hb & Hwb & Ha).
  simpl in Hwb. subst pend. cbn [session] in Ha.
  pose proof (closes_before_initialization _ _ Hlegal Hno) as Hcloses.
  destruct (run_spec _ _ _ Hb) as (Hcfg & _).
  destruct Hcfg as (Hreq & _ & _ & Htrust & _). simpl in Hreq, Htrust.
  destruct (run_before_tick _ _ _ Hb Hno) as (_ & Hem & Hcalls).
  simpl in Hem, Hcalls.
  destruct (Hcalls (closes_are_no_calls _ Hcloses)) as (Hwrites & Hlast).
  destruct (run_spec _ _ _ Ha) as (_ & (later & Hlater & Hquiet) & _).
  destruct (header_effects_flush s0) as (settings & Hhe & Hnf).
  exists before, after, s0,
    (mkSession (initial_lastId s0) (req s0) (serialize s0) (sanitize s0)
       (trustClientEventId s0) (initialRetry s0) (statusCode s0) (headers s0)
       (trace s0 ++ header_effects s0 ++ retry_effects s0) (entropy s0) (drawn s0)),
    settings, later.
  split; [reflexivity|]. split; [exact Hcloses|]. split; [exact Hb|].
  split; [exact Hlast|]. split; [exact Hwrites|].
  split.
  { intro connected. rewrite onConnected_with_spec. unfold emit. rewrite log_mk.
    do 2 f_equal. now rewrite <- !app_assoc. }
  fields. split.
  { unfold initial_lastId. rewrite Htrust, Hreq, Hlast. reflexivity. }
  split; [rewrite Hhe, <- !app_assoc; reflexivity|].
  split; [exact Hnf|].
  split.
  { rewrite !emitted_app, Hem.
    rewrite (proj2 (header_effects_quiet s0)).
    now rewrite (emitted_writes _ _ (retry_effects_writes s0)). }
  split; [|now apply Hquiet].
  cbn [session] in Hlater. rewrite Hlater, onConnected_spec. fields.
  now rewrite <- !app_assoc.
Qed.

Lemma C6_connected_exactly_once_witness :
  let w0 := construct string_serializer {| last_event_id := Some "42" |} no_options
              (fun _ => x00) in
  exists w,
    run [Close; Tick; Call (CallComment None)] w0 = Some w
    /\ emitted "connected" (trace (session w)) = 1.
Proof.
  intro w0. eexists. split; [reflexivity|].
  exact (proj1 (C6_connected_exactly_once string_serializer
                  {| last_event_id := Some "42" |} no_options (fun _ => x00)
                  [Close; Tick; Call (CallComment None)] _ eq_refl eq_refl)).
Defined.

(** ** The automatic retry frame *)



(** ** Closure before initialization *)

Lemma trace_log (a : effect) (s : Session) : trace (log a s) = (trace s ++ [a])%list.
Proof. reflexivity. Qed.

Lemma header_effects_log (a : effect) (s : Session) :
  header_effects (log a s) = header_effects s.
Proof. reflexivity. Qed.

Lemma retry_effects_log (a : effect) (s : Session) :
  retry_effects (log a s) = retry_effects s.
Proof. reflexivity. Qed.

(** C10: when the transport's close notification fires before the deferred
    initialization, the session emits the disconnected notification first,
    and the initialization still runs in full afterwards: the headers are set
    and flushed, the automatic retry frame is written as configured, and the
    connected notification is emitted, after the disconnected one.  Nothing
    that happens before it cancels the initialization: in every run in which
    it has not run yet it is still due and runs unconditionally. *)
Theorem C10_close_before_initialization (ds : SerializerFunction)
    (r : IncomingMessage) (o : SessionOptions) (tape : nat -> byte) :
  let w0 := construct ds r o tape in
  (exists w1 w2 settings,
     exec Close w0 = Some w1
     /\ trace (session w1) = [Emit "disconnected"]
     /\ exec Tick w1 = Some w2
     /\ trace (session w2)
        = (Emit "disconnected" :: settings ++ FlushHeaders
             :: retry_effects (session w0) ++ [Emit "connected"])%list
     /\ ~ In FlushHeaders settings
     /\ emitted "connected" settings = 0
     /\ retry_effects (session w0)
        = match configured_retry o with
          | Some n =>
              [Write ("retry:" ++ sanitize (session w0) (number_toString n) ++ NL);
               Write NL]
          | None => []
          end)
  /\ (forall before wb,
        run (Close :: before) w0 = Some wb ->
        (immediate wb = true <-> ~ In Tick before)
        /\ (immediate wb = true ->
            exec Tick wb
            = Some {| session := onConnected (session wb); immediate := false |}
            /\ trace (onConnected (session wb))
               = (trace (session wb) ++ header_effects (session wb)
                    ++ retry_effects (session wb) ++ [Emit "connected"])%list)
        /\ exists rest,
             trace (session wb) = Emit "disconnected" :: rest
             /\ emitted "connected" rest = (if immediate wb then 0 else 1)).
Proof.
  intro w0. split.
  - destruct (header_effects_flush (session w0)) as (settings & Hhe & Hnf).
    eexists _, _, settings.
    split; [reflexivity|]. split; [reflexivity|]. split; [reflexivity|].
    split.
    { cbn [session]. rewrite onConnected_spec. fields.
      unfold onDisconnected, emit.
      rewrite header_effects_log, retry_effects_log, trace_log, Hhe.
      change (trace (session w0)) with (@nil effect).
      simpl app. rewrite <- !app_assoc. reflexivity. }
    split; [exact Hnf|].
    split.
    { pose proof (proj2 (header_effects_quiet (session w0)) "connected") as Hq.
      rewrite Hhe, emitted_app in Hq. lia. }
    reflexivity.
  - intros before wb Hrun.
    change (Close :: before) with ([Close] ++ before)%list in Hrun.
    rewrite run_app in Hrun. simpl run at 2 in Hrun.
    destruct (run_spec _ _ _ Hrun) as (_ & (later & Hlater & _) & Hcount & Hstay).
    cbn [session immediate] in Hlater, Hcount.
    split; [|split].
    + split.
      * intro Hwb. exact (run_pending_no_tick _ _ _ Hrun Hwb).
      * intro Hno. now destruct (run_before_tick _ _ _ Hrun Hno) as (-> & _).
    + intro Hwb. split; [simpl; now rewrite Hwb | apply (f_equal trace (onConnected_spec _))].
    + exists later. split; [exact Hlater|].
      rewrite Hlater in Hcount. simpl in Hcount.
      destruct (immediate wb); lia.
Qed.

Lemma C10_close_before_initialization_witness :
  let w0 := construct string_serializer {| last_event_id := None |} no_options
              (fun _ => x00) in
  exists wb rest,
    run (Close :: [Call CallDispatch; Tick]) w0 = Some wb
    /\ trace (session wb) = Emit "disconnected" :: rest
    /\ emitted "connected" rest = 1.
Proof.
  intro w0.
  destruct (proj2 (C10_close_before_initialization string_serializer
                     {| last_event_id := None |} no_options (fun _ => x00))
              [Call CallDispatch; Tick] _ eq_refl)
    as (_ & _ & rest & Hrest & Hcount).
  eexists. exists rest. split; [reflexivity|]. split; [exact Hrest | exact Hcount].
Defined.

(** ** Stream adapter *)

(** The data listener always gets past the overload resolution of [push]:
    its first argument is a string and its second one is not [undefined]. *)
Lemma push_arguments_stream (type dat : string) :
  push_arguments (VString type) (VString dat) = Some (type, VString dat).
Proof.
  unfold push_arguments. simpl is_undefined. now rewrite andb_false_r.
Qed.

Lemma pushed_event_ext (s s' : Session) (type ident : string) (payload : value) :
  sanitize s' = sanitize s -> serialize s' = serialize s ->
  pushed_event s' type ident payload = pushed_event s type ident payload.
Proof. unfold pushed_event. now intros -> ->. Qed.

Lemma chunk_events_ext (s s' : Session) (type : string) (pos : nat) (cs : list chunk) :
  sanitize s' = sanitize s -> serialize s' = serialize s -> entropy s' = entropy s ->
  chunk_events s' type pos cs = chunk_events s type pos cs.
Proof.
  intros Hsan Hser Hent. revert pos. induction cs as [|c cs IH]; intro pos; [reflexivity|].
  cbn [chunk_events]. rewrite IH, (pushed_event_ext s s' _ _ _ Hsan Hser).
  unfold identifier_at. now rewrite Hent.
Qed.

Lemma chunks_of_app (ns ms : list notification) :
  chunks_of (ns ++ ms) = (chunks_of ns ++ chunks_of ms)%list.
Proof.
  induction ns as [|n ns IH]; [reflexivity|].
  destruct n; simpl; now rewrite IH.
Qed.

Lemma chunks_of_data (cs : list chunk) : chunks_of (map OnData cs) = cs.
Proof. induction cs as [|c cs IH]; [reflexivity | simpl; now rewrite IH]. Qed.

Lemma chunk_events_app (s : Session) (type : string) (pos : nat) (cs ds : list chunk) :
  chunk_events s type pos (cs ++ ds)
  = (chunk_events s type pos cs ++ chunk_events s type (pos + 4 * List.length cs) ds)%list.
Proof.
  revert pos. induction cs as [|c cs IH]; intro pos.
  - simpl. now rewrite Nat.add_0_r.
  - cbn [chunk_events app List.length]. rewrite IH, <- app_assoc.
    do 3 f_equal. lia.
Qed.

(** One notification: a chunk is pushed as one event of the stream's type,
    the identifier being drawn at the current position; the others leave the
    session alone. *)
Lemma notify_target (n : notification) (st : Streaming) :
  event_name (notify n st) = event_name st
  /\ sanitize (target (notify n st)) = sanitize (target st)
  /\ serialize (target (notify n st)) = serialize (target st)
  /\ entropy (target (notify n st)) = entropy (target st)
  /\ trace (target (notify n st))
     = (trace (target st)
        ++ chunk_events (target st) (event_name st) (drawn (target st)) (chunks_of [n]))%list
  /\ drawn (target (notify n st))
     = drawn (target st) + 4 * List.length (chunks_of [n]).
Proof.
  destruct n as [c| | |err]; simpl notify.
  - cbn [target event_name].
    pose proof (push_arguments_stream (event_name st) (chunk_text c)) as Hargs.
    rewrite (push_resolved _ _ (target st) _ _ Hargs).
    destruct (push_effects _ _ (target st) _ _ _ Hargs (push_resolved _ _ _ _ _ Hargs))
      as (Ht & _ & Hd & Hsan & Hser & Hent & _).
    repeat split; assumption.
  - destruct (end_attached st); cbn [target event_name]; repeat split;
      simpl; rewrite ?app_nil_r; auto.
  - destruct (close_attached st); cbn [target event_name]; repeat split;
      simpl; rewrite ?app_nil_r; auto.
  - destruct (error_attached st); cbn [target event_name]; repeat split;
      simpl; rewrite ?app_nil_r; auto.
Qed.

(** The events written by a whole sequence of notifications. *)
Lemma feed_target (ns : list notification) (st : Streaming) :
  event_name (feed ns st) = event_name st
  /\ sanitize (target (feed ns st)) = sanitize (target st)
  /\ serialize (target (feed ns st)) = serialize (target st)
  /\ entropy (target (feed ns st)) = entropy (target st)
  /\ trace (target (feed ns st))
     = (trace (target st)
        ++ chunk_events (target st) (event_name st) (drawn (target st)) (chunks_of ns))%list
  /\ drawn (target (feed ns st))
     = drawn (target st) + 4 * List.length (chunks_of ns).
Proof.
  revert st. induction ns as [|n ns IH]; intro st.
  - simpl. rewrite app_nil_r. repeat split; lia.
  - change (feed (n :: ns) st) with (feed ns (notify n st)).
    destruct (notify_target n st) as (Hn & Hsan & Hser & Hent & Ht & Hd).
    destruct (IH (notify n st)) as (Hn' & Hsan' & Hser' & Hent' & Ht' & Hd').
    split; [congruence|]. split; [congruence|]. split; [congruence|].
    split; [congruence|].
    change (n :: ns) with ([n] ++ ns)%list. rewrite chunks_of_app.
    split.
    + rewrite Ht', Ht, Hn, Hd, chunk_events_app, <- app_assoc.
      now rewrite (chunk_events_ext (target st) (target (notify n st)) _ _ _ Hsan Hser Hent).
    + rewrite Hd', Hd, length_app. lia.
Qed.

(** A settled promise stays as it is. *)
Lemma notify_settled (n : notification) (st : Streaming) :
  completion st <> Pending -> completion (notify n st) = completion st.
Proof.
  intro Hs. destruct n; simpl notify; [reflexivity| | |].
  - destruct (end_attached st); cbn [completion]; [|reflexivity].
    destruct (completion st); [now elim Hs | reflexivity | reflexivity].
  - destruct (close_attached st); cbn [completion]; [|reflexivity].
    destruct (completion st); [now elim Hs | reflexivity | reflexivity].
  - destruct (error_attached st); cbn [completion]; [|reflexivity].
    destruct (completion st); [now elim Hs | reflexivity | reflexivity].
Qed.

Lemma feed_settled (ns : list notification) (st : Streaming) :
  completion st <> Pending -> completion (feed ns st) = completion st.
Proof.
  revert st. induction ns as [|n ns IH]; intros st Hs; [reflexivity|].
  change (feed (n :: ns) st) with (feed ns (notify n st)).
  rewrite IH; rewrite (notify_settled n st Hs); auto.
Qed.

(** While the promise is pending and the three [once] listeners are still
    attached, the first of [end], [close] and [error] settles it. *)
Lemma feed_pending (ns : list notification) (st : Streaming) :
  completion st = Pending ->
  end_attached st = true -> close_attached st = true -> error_attached st = true ->
  completion (feed ns st) = first_settlement ns.
Proof.
  revert st. induction ns as [|n ns IH]; intros st Hp He Hc Hr; [exact Hp|].
  change (feed (n :: ns) st) with (feed ns (notify n st)).
  destruct n as [c| | |err]; cbn [first_settlement].
  - apply IH; assumption.
  - rewrite feed_settled; simpl notify; rewrite He; cbn [completion]; rewrite Hp;
      [reflexivity | discriminate].
  - rewrite feed_settled; simpl notify; rewrite Hc; cbn [completion]; rewrite Hp;
      [reflexivity | discriminate].
  - rewrite feed_settled; simpl notify; rewrite Hr; cbn [completion]; rewrite Hp;
      [reflexivity | discriminate].
Qed.

Lemma first_settlement_data (cs : list chunk) (ns : list notification) :
  first_settlement (map OnData cs ++ ns) = first_settlement ns.
Proof. induction cs as [|c cs IH]; [reflexivity | exact IH]. Qed.

(** The sequences that [lead] lets a byte begin are those of table 3-7. *)
Lemma lead_table (b : byte) :
  Utf8.within 0 127 b = false ->
  Utf8.lead b =
    if Utf8.within 194 223 b then Some (1, 128%N, 191%N)
    else if Utf8.within 224 224 b then Some (2, 160%N, 191%N)
    else if Utf8.within 225 236 b || Utf8.within 238 239 b then Some (2, 128%N, 191%N)
    else if Utf8.within 237 237 b then Some (2, 128%N, 159%N)
    else if Utf8.within 240 240 b then Some (3, 144%N, 191%N)
    else if Utf8.within 241 243 b then Some (3, 128%N, 191%N)
    else if Utf8.within 244 244 b then Some (3, 128%N, 143%N)
    else None.
Proof. destruct b; intro H; try discriminate H; reflexivity. Qed.

Ltac conjuncts H :=
  repeat match type of H with
         | _ && _ = true =>
             let H1 := fresh "Hc" in
             apply andb_true_iff in H as [H H1]
         end.

(** Decoding keeps well-formed UTF-8 as it is. *)
Lemma scrub_well_formed_aux (n : nat) (bytes : list byte) :
  List.length bytes <= n ->
  Utf8.well_formed bytes = true -> Utf8.scrub bytes = bytes.
Proof.
  revert bytes. induction n as [|n IH]; intros bytes Hlen Hwf.
  - destruct bytes; [reflexivity | simpl in Hlen; lia].
  - destruct bytes as [|b rest]; [reflexivity|].
    cbn [Utf8.scrub Utf8.well_formed] in Hwf |- *.
    destruct (Utf8.within 0 127 b) eqn:Hascii.
    { f_equal. apply IH; [simpl in Hlen; lia | exact Hwf]. }
    rewrite (lead_table b Hascii).
    destruct rest as [|c1 rest1]; [discriminate|].
    destruct (Utf8.within 194 223 b).
    { conjuncts Hwf. rewrite Hwf. cbn [negb]. do 2 f_equal.
      apply IH; [simpl in Hlen; lia | assumption]. }
    destruct rest1 as [|c2 rest2]; [discriminate|].
    destruct (Utf8.within 224 224 b).
    { conjuncts Hwf. rewrite Hwf, Hc0. cbn [negb]. do 3 f_equal.
      apply IH; [simpl in Hlen; lia | assumption]. }
    destruct (Utf8.within 225 236 b || Utf8.within 238 239 b).
    { conjuncts Hwf. rewrite Hwf, Hc0. cbn [negb]. do 3 f_equal.
      apply IH; [simpl in Hlen; lia | assumption]. }
    destruct (Utf8.within 237 237 b).
    { conjuncts Hwf. rewrite Hwf, Hc0. cbn [negb]. do 3 f_equal.
      apply IH; [simpl in Hlen; lia | assumption]. }
    destruct rest2 as [|c3 rest3]; [discriminate|].
    destruct (Utf8.within 240 240 b).
    { conjuncts Hwf. rewrite Hwf, Hc1, Hc0. cbn [negb]. do 4 f_equal.
      apply IH; [simpl in Hlen; lia | assumption]. }
    destruct (Utf8.within 241 243 b).
    { conjuncts Hwf. rewrite Hwf, Hc1, Hc0. cbn [negb]. do 4 f_equal.
      apply IH; [simpl in Hlen; lia | assumption]. }
    destruct (Utf8.within 244 244 b).
    { conjuncts Hwf. rewrite Hwf, Hc1, Hc0. cbn [negb]. do 4 f_equal.
      apply IH; [simpl in Hlen; lia | assumption]. }
    discriminate.
Qed.

Lemma well_formed_replacement (bytes : list byte) :
  Utf8.well_formed (Utf8.replacement ++ bytes) = Utf8.well_formed bytes.
Proof. reflexivity. Qed.

(** Whatever the buffer holds, the decoded string is well-formed UTF-8. *)
Lemma scrub_yields_well_formed_aux (n : nat) (bytes : list byte) :
  List.length bytes <= n -> Utf8.well_formed (Utf8.scrub bytes) = true.
Proof.
  revert bytes. induction n as [|n IH]; intros bytes Hlen.
  - destruct bytes; [reflexivity | simpl in Hlen; lia].
  - destruct bytes as [|b rest]; [reflexivity|].
    assert (Hrest : forall tail, List.length tail <= List.length rest ->
                    Utf8.well_formed (Utf8.scrub tail) = true)
      by (intros tail Ht; apply IH; simpl in Hlen; lia).
    clear IH Hlen.
    cbn [Utf8.scrub].
    destruct (Utf8.within 0 127 b) eqn:Hascii.
    { cbn [Utf8.well_formed]. rewrite Hascii. now apply Hrest. }
    rewrite (lead_table b Hascii).
    assert (Hbad : Utf8.well_formed (Utf8.replacement ++ Utf8.scrub rest) = true)
      by (rewrite well_formed_replacement; now apply Hrest).
    destruct (Utf8.within 194 223 b) eqn:T1;
    [|destruct (Utf8.within 224 224 b) eqn:T2;
      [|destruct (Utf8.within 225 236 b || Utf8.within 238 239 b) eqn:T3;
        [|destruct (Utf8.within 237 237 b) eqn:T4;
          [|destruct (Utf8.within 240 240 b) eqn:T5;
            [|destruct (Utf8.within 241 243 b) eqn:T6;
              [|destruct (Utf8.within 244 244 b) eqn:T7; [|exact Hbad]]]]]]];
    (destruct rest as [|c1 rest1]; [reflexivity|]);
    match goal with
    | |- context [negb (Utf8.within ?lo ?hi c1)] =>
        destruct (Utf8.within lo hi c1) eqn:H1; cbn [negb]; [|exact Hbad]
    end;
    try (cbn [Utf8.well_formed]; rewrite Hascii, T1, H1; cbn [andb];
         apply Hrest; simpl; lia);
    (destruct rest1 as [|c2 rest2]; [reflexivity|]);
    (destruct (Utf8.within 128 191 c2) eqn:H2; cbn [negb];
     [|rewrite well_formed_replacement; apply Hrest; simpl; lia]);
    try (cbn [Utf8.well_formed]; rewrite Hascii, T1, ?T2, ?T3, ?T4, H1, H2; cbn [andb];
         apply Hrest; simpl; lia);
    (destruct rest2 as [|c3 rest3]; [reflexivity|]);
    (destruct (Utf8.within 128 191 c3) eqn:H3; cbn [negb];
     [|rewrite well_formed_replacement; apply Hrest; simpl; lia]);
    cbn [Utf8.well_formed];
    rewrite Hascii, T1, ?T2, ?T3, ?T4, ?T5, ?T6, ?T7, H1, H2, H3; cbn [andb];
    apply Hrest; simpl; lia.
Qed.

Lemma scrub_identity (bytes : list byte) :
  Utf8.scrub bytes = bytes <-> Utf8.well_formed bytes = true.
Proof.
  split.
  - intro H. rewrite <- H. now apply (scrub_yields_well_formed_aux (List.length bytes)).
  - now apply (scrub_well_formed_aux (List.length bytes)).
Qed.

(** A buffer of ASCII bytes decodes to the string of those bytes. *)
Lemma scrub_ascii (bytes : list byte) :
  forallb (Utf8.within 0 127) bytes = true -> Utf8.scrub bytes = bytes.
Proof.
  induction bytes as [|b bytes IH]; [reflexivity|].
  cbn [forallb]. intro H. apply andb_true_iff in H as [Hb Hrest].
  cbn [Utf8.scrub]. rewrite Hb. now rewrite (IH Hrest).
Qed.

(** C8: for every producer, whatever it emits and in whatever order, the
    session receives exactly one event per chunk, in emission order: an
    event field with the configured type (stream by default), an id field, a
    data field with the serialized text of the chunk, and a dispatch.  The
    text of a string chunk is the string; the text of a buffer is its UTF-8
    decoding, which is well-formed UTF-8 whatever the buffer holds, is the
    buffer itself exactly when the buffer is well-formed (ASCII bytes in
    particular), and has U+FFFD (EF BF BD) for every ill-formed sequence.  The promise is settled by the first of end, close and error: after
    chunks alone it is pending, and once end or close has come after them it
    is fulfilled with true, whatever follows; the second of end and close
    changes neither the promise nor the session. *)
Theorem C8_stream_events (s : Session) (options : StreamOptions)
    (chunks : list chunk) (later : list notification) :
  let type := match opt_event options with Some e => e | None => "stream" end in
  let st0 := stream options s in
  (forall ns,
     trace (target (feed ns st0))
     = (trace s ++ chunk_events s type (drawn s) (chunks_of ns))%list
     /\ completion (feed ns st0) = first_settlement ns)
  /\ (forall pos t cs,
        chunk_events s type pos (Text t :: cs)
        = ([Write ("event:" ++ sanitize s type ++ NL);
            Write ("id:" ++ sanitize s (identifier_at s pos) ++ NL);
            Write ("data:" ++ sanitize s (serialize s (VString t)) ++ NL);
            Write NL]
           ++ chunk_events s type (pos + 4) cs)%list)
  /\ (forall pos bytes cs,
        chunk_events s type pos (Buffer bytes :: cs)
        = ([Write ("event:" ++ sanitize s type ++ NL);
            Write ("id:" ++ sanitize s (identifier_at s pos) ++ NL);
            Write ("data:"
                   ++ sanitize s
                        (serialize s (VString (string_of_list_byte (Utf8.scrub bytes))))
                   ++ NL);
            Write NL]
           ++ chunk_events s type (pos + 4) cs)%list)
  /\ (forall bytes,
        forallb (Utf8.within 0 127) bytes = true ->
        chunk_text (Buffer bytes) = string_of_list_byte bytes)
  /\ (forall bytes, Utf8.scrub bytes = bytes <-> Utf8.well_formed bytes = true)
  /\ (forall bytes, Utf8.well_formed (Utf8.scrub bytes) = true)
  /\ chunk_text (Buffer [x68; x69]) = "hi"
  /\ Utf8.scrub [x63; xc3; xa9] = [x63; xc3; xa9]
  /\ Utf8.scrub [xe2; x82; xac] = [xe2; x82; xac]
  /\ Utf8.scrub [xf0; x9f; x98; x80] = [xf0; x9f; x98; x80]
  /\ Utf8.scrub [x61; xff; x62] = [x61; xef; xbf; xbd; x62]
  /\ Utf8.scrub [xe2; x82] = [xef; xbf; xbd]
  /\ Utf8.scrub [xe2; x41] = [xef; xbf; xbd; x41]
  /\ Utf8.scrub [xc0; x80] = [xef; xbf; xbd; xef; xbf; xbd]
  /\ Utf8.scrub [xed; xa0; x80] = [xef; xbf; xbd; xef; xbf; xbd; xef; xbf; xbd]
  /\ completion (feed (map OnData chunks) st0) = Pending
  /\ completion (feed (map OnData chunks ++ OnEnd :: later) st0) = Fulfilled true
  /\ completion (feed (map OnData chunks ++ OnClose :: later) st0) = Fulfilled true
  /\ (let ended := feed (map OnData chunks ++ [OnEnd]) st0 in
      completion (notify OnClose ended) = Fulfilled true
      /\ target (notify OnClose ended) = target ended)
  /\ (let closed := feed (map OnData chunks ++ [OnClose]) st0 in
      completion (notify OnEnd closed) = Fulfilled true
      /\ target (notify OnEnd closed) = target closed).
Proof.
  intros type st0.
  assert (Hall : forall ns, completion (feed ns st0) = first_settlement ns)
    by (intro ns; now apply feed_pending).
  split.
  { intro ns. split; [|apply Hall].
    now destruct (feed_target ns st0) as (_ & _ & _ & _ & Ht & _). }
  split; [reflexivity|]. split; [reflexivity|].
  split; [intros bytes Hascii; unfold chunk_text, Utf8.decode; now rewrite scrub_ascii|].
  split; [exact scrub_identity|].
  split; [intro bytes; now apply (scrub_yields_well_formed_aux (List.length bytes))|].
  do 9 (split; [reflexivity|]).
  split; [rewrite Hall, <- (app_nil_r (map OnData chunks)); apply first_settlement_data|].
  split; [rewrite Hall; apply first_settlement_data|].
  split; [rewrite Hall; apply first_settlement_data|].
  split.
  - cbn zeta. split.
    + rewrite notify_settled; rewrite Hall, first_settlement_data;
        [reflexivity | discriminate].
    + simpl notify. now destruct (close_attached _).
  - cbn zeta. split.
    + rewrite notify_settled; rewrite Hall, first_settlement_data;
        [reflexivity | discriminate].
    + simpl notify. now destruct (end_attached _).
Qed.

(** C9, as stated, on a producer that emits an error and then one more
    chunk: the promise is rejected with the error, and the chunk is pushed
    all the same, since the data listener stays attached. *)
Lemma C9_chunk_after_error :
  let s := new_Session string_serializer {| last_event_id := None |} no_options
             (fun _ => x00) in
  let failed := feed [OnError (VString "boom")] (stream {| opt_event := None |} s) in
  let st := feed [OnError (VString "boom"); OnData (Text "late")]
              (stream {| opt_event := None |} s) in
  completion failed = Rejected (VString "boom")
  /\ writes (trace (target failed)) = []
  /\ completion st = Rejected (VString "boom")
  /\ writes (trace (target st))
     = ["event:stream" ++ NL; "id:00000000" ++ NL; "data:late" ++ NL; NL].
Proof. repeat split. Qed.

(** C9, amended: for every producer whose first notification among end,
    close and error is an error, the promise returned by [stream] is rejected
    with that error value and stays so; the adapter keeps its data listener,
    so the chunk events that follow the error are exactly those of the chunks
    the producer still emits after it, none when it emits none. *)
Theorem C9_stream_error (s : Session) (options : StreamOptions)
    (chunks : list chunk) (err : value) (later : list notification) :
  let type := match opt_event options with Some e => e | None => "stream" end in
  let st0 := stream options s in
  let failed := feed (map OnData chunks ++ [OnError err]) st0 in
  let st := feed (map OnData chunks ++ OnError err :: later) st0 in
  completion failed = Rejected err
  /\ completion st = Rejected err
  /\ trace (target failed) = (trace s ++ chunk_events s type (drawn s) chunks)%list
  /\ trace (target st)
     = (trace (target failed)
        ++ chunk_events s type (drawn s + 4 * List.length chunks) (chunks_of later))%list.
Proof.
  intros type st0 failed st.
  assert (Hall : forall ns, completion (feed ns st0) = first_settlement ns)
    by (intro ns; now apply feed_pending).
  split; [unfold failed; rewrite Hall; apply first_settlement_data|].
  split; [unfold st; rewrite Hall; apply first_settlement_data|].
  destruct (feed_target (map OnData chunks ++ [OnError err]) st0)
    as (_ & _ & _ & _ & Hf & _).
  destruct (feed_target (map OnData chunks ++ OnError err :: later) st0)
    as (_ & _ & _ & _ & Ht & _).
  fold failed in Hf. fold st in Ht.
  rewrite chunks_of_app, chunks_of_data in Hf, Ht.
  cbn [chunks_of] in Hf, Ht. rewrite app_nil_r in Hf.
  split; [exact Hf|].
  rewrite Ht, Hf, chunk_events_app, <- app_assoc. reflexivity.
Qed.

(** ** The response head *)

Lemma header_settings_app (t u : list effect) :
  header_settings (t ++ u) = (header_settings t ++ header_settings u)%list.
Proof.
  induction t as [|a t IH]; [reflexivity|].
  destruct a; simpl; now rewrite IH.
Qed.

Lemma status_settings_app (t u : list effect) :
  status_settings (t ++ u) = (status_settings t ++ status_settings u)%list.
Proof.
  induction t as [|a t IH]; [reflexivity|].
  destruct a; simpl; now rewrite IH.
Qed.

Lemma flushes_app (t u : list effect) : flushes (t ++ u) = flushes t + flushes u.
Proof.
  induction t as [|a t IH]; [reflexivity|].
  destruct a; simpl; now rewrite IH.
Qed.

Lemma after_flush_app (t u : list effect) :
  after_flush (t ++ u)
  = match flushes t with
    | O => after_flush u
    | S _ => (after_flush t ++ u)%list
    end.
Proof.
  induction t as [|a t IH]; [reflexivity|].
  destruct a; simpl; try exact IH. reflexivity.
Qed.

(** Body writes and notifications set no header, no status, and flush
    nothing. *)
Lemma body_effects_head (t : list effect) :
  forallb (fun a => match a with Write _ | Emit _ => true | _ => false end) t = true ->
  header_settings t = [] /\ status_settings t = [] /\ flushes t = 0
  /\ header_settings (after_flush t) = [] /\ status_settings (after_flush t) = [].
Proof.
  induction t as [|a t IH]; [repeat split|].
  destruct a; simpl; try discriminate; exact IH.
Qed.

Lemma writes_are_body (t : list effect) :
  forallb is_write t = true ->
  forallb (fun a => match a with Write _ | Emit _ => true | _ => false end) t = true.
Proof.
  induction t as [|a t IH]; [reflexivity|].
  destruct a; simpl; try discriminate. exact IH.
Qed.

Lemma caller_headers_head (hs : OutgoingHttpHeaders) :
  let sets :=
    map (fun entry : string * option string =>
           SetHeader (fst entry) (match snd entry with Some v => v | None => "" end))
        hs in
  header_settings sets
  = map (fun entry : string * option string =>
           (fst entry, match snd entry with Some v => v | None => "" end)) hs
  /\ status_settings sets = [] /\ flushes sets = 0.
Proof.
  induction hs as [|h hs (IH1 & IH2 & IH3)]; [repeat split|].
  cbn [map header_settings status_settings flushes]. rewrite IH1. auto.
Qed.

(** The header part of what [onConnected] appends. *)
Lemma header_effects_head (s : Session) :
  header_settings (header_effects s) = headers_sent s
  /\ status_settings (header_effects s) = [statusCode s]
  /\ flushes (header_effects s) = 1
  /\ after_flush (header_effects s) = [].
Proof.
  unfold header_effects, headers_sent.
  destruct (caller_headers_head (headers s)) as (H1 & H2 & H3).
  rewrite header_settings_app, status_settings_app, flushes_app, after_flush_app.
  rewrite H1, H2, H3. repeat split.
Qed.

(** What one turn adds, seen through the projections: only the
    initialization touches the head of the response, and only a [close]
    emits the disconnected notification. *)
Lemma exec_added (i : input) (w w' : World) :
  exec i w = Some w' ->
  exists added,
    trace (session w') = (trace (session w) ++ added)%list
    /\ match i with
       | Tick =>
           immediate w = true /\ immediate w' = false
           /\ added = (header_effects (session w) ++ retry_effects (session w)
                       ++ [Emit "connected"])%list
       | Close => immediate w' = immediate w /\ added = [Emit "disconnected"]
       | Call _ => immediate w' = immediate w /\ forallb is_write added = true
       end.
Proof.
  destruct i as [ | |c]; simpl exec.
  - destruct (immediate w) eqn:Him; [|discriminate]. intros [= <-].
    cbn [session immediate]. rewrite onConnected_spec. fields.
    eexists. split; [reflexivity|]. auto.
  - intros [= <-]. cbn [session immediate]. eexists. split; [reflexivity|]. auto.
  - intros [= <-]. cbn [session immediate].
    destruct (invoke_spec c (session w)) as (_ & (added & Ht & Hw) & _).
    exists added. auto.
Qed.

Lemma response_head_exec (i : input) (w w' : World) :
  exec i w = Some w' -> response_head w -> response_head w'.
Proof.
  intros Hexec (Hh & Hs & Hf & Hah & Has).
  destruct (exec_spec _ _ _ Hexec) as ((_ & _ & _ & _ & _ & Hsc & Hhd & _) & _).
  destruct (exec_added _ _ _ Hexec) as (added & Ht & Hi).
  assert (Hbody : forallb (fun a => match a with Write _ | Emit _ => true | _ => false end)
                    added = true ->
                  immediate w' = immediate w ->
                  response_head w').
  { intros Hb Him. destruct (body_effects_head _ Hb) as (B1 & B2 & B3 & B4 & B5).
    unfold response_head, headers_sent. rewrite Ht, Hsc, Hhd.
    rewrite header_settings_app, status_settings_app, flushes_app, after_flush_app.
    rewrite Hh, Hs, Hf, B1, B2, B3, Him, !app_nil_r, Nat.add_0_r.
    repeat split.
    - destruct (immediate w); [exact B4|].
      now rewrite header_settings_app, Hah, B1.
    - destruct (immediate w); [exact B5|].
      now rewrite status_settings_app, Has, B2. }
  destruct i as [ | |c].
  - destruct Hi as (Hw & Hw' & ->). rewrite Hw in Hh, Hs, Hf.
    destruct (header_effects_head (session w)) as (E1 & E2 & E3 & E4).
    set (tail := (retry_effects (session w) ++ [Emit "connected"])%list) in *.
    destruct (body_effects_head tail) as (B1 & B2 & B3 & _).
    { unfold tail. rewrite forallb_app.
      rewrite (writes_are_body _ (retry_effects_writes _)). reflexivity. }
    unfold response_head, headers_sent. rewrite Ht, Hw', Hsc, Hhd.
    rewrite !header_settings_app, !status_settings_app, !flushes_app.
    rewrite after_flush_app, Hf, after_flush_app, E3, E4.
    rewrite Hh, Hs, E1, E2, B1, B2, B3.
    cbn [app]. rewrite !app_nil_r. unfold headers_sent. repeat split; assumption.
  - destruct Hi as (Him & ->). now apply Hbody.
  - destruct Hi as (Him & Hw). apply Hbody; [now apply writes_are_body | exact Him].
Qed.

Lemma response_head_run (ins : list input) (w w' : World) :
  run ins w = Some w' -> response_head w -> response_head w'.
Proof.
  revert w. induction ins as [|i ins IH]; intros w; simpl.
  - now intros [= <-].
  - destruct (exec i w) as [w1|] eqn:Hexec; [|discriminate].
    intros Hrun Hw. apply (IH _ Hrun). exact (response_head_exec _ _ _ Hexec Hw).
Qed.

(** X2: the head of the response is the initialization's alone.  In every
    run of a session whose owner calls nothing before the deferred
    initialization (flushing the headers is the point after which body
    writes are legal), nothing is set, flushed or written while the
    initialization is due; once it has run, the headers set are the caller's
    in the order given (a value left [undefined] as the empty string)
    followed by the three of the protocol, which therefore come last, the
    status code is set once (200 unless configured), the headers are flushed
    exactly once, nothing is written to the body before the flush, and no
    header or status is ever set after it. *)
Theorem X2_response_head_set_once (ds : SerializerFunction) (r : IncomingMessage)
    (o : SessionOptions) (tape : nat -> byte) (ins : list input) (w : World) :
  calls_follow_initialization ins = true ->
  run ins (construct ds r o tape) = Some w ->
  let given := match opt_headers o with Some h => h | None => [] end in
  let code := match opt_statusCode o with Some c => c | None => 200%Z end in
  header_settings (trace (session w))
  = (if immediate w then []
     else (map (fun entry : string * option string =>
                  (fst entry, match snd entry with Some v => v | None => "" end))
               given
           ++ protocol_headers)%list)
  /\ status_settings (trace (session w)) = (if immediate w then [] else [code])
  /\ flushes (trace (session w)) = (if immediate w then 0 else 1)
  /\ header_settings (after_flush (trace (session w))) = []
  /\ status_settings (after_flush (trace (session w))) = []
  /\ (immediate w = true -> writes (trace (session w)) = [])
  /\ (immediate w = false ->
      exists head body,
        trace (session w) = (head ++ FlushHeaders :: body)%list
        /\ writes head = []).
Proof.
  intros Hlegal Hrun given code.
  destruct (run_spec _ _ _ Hrun) as ((_ & _ & _ & _ & _ & Hsc & Hhd & _) & _).
  simpl in Hsc, Hhd.
  assert (H0 : response_head (construct ds r o tape)) by (repeat split).
  destruct (response_head_run _ _ _ Hrun H0) as (H1 & H2 & H3 & H4 & H5).
  unfold headers_sent in H1. rewrite Hhd in H1. rewrite Hsc in H2.
  do 5 (split; [assumption|]).
  split.
  - intro Hw.
    pose proof (run_pending_no_tick _ _ _ Hrun Hw) as Hno.
    pose proof (closes_while_pending _ Hlegal Hno) as Hcloses.
    destruct (run_before_tick _ _ _ Hrun Hno) as (_ & _ & Hcalls).
    exact (proj1 (Hcalls (closes_are_no_calls _ Hcloses))).
  - intro Hw.
    destruct (run_split_tick _ _ _ Hrun eq_refl Hw)
      as (before & after & [s0 pend] & -> & Hno & Hb & Hwb & Ha).
    simpl in Hwb. subst pend. cbn [session] in Ha.
    pose proof (closes_before_initialization _ _ Hlegal Hno) as Hcloses.
    destruct (run_before_tick _ _ _ Hb Hno) as (_ & _ & Hcalls).
    destruct (Hcalls (closes_are_no_calls _ Hcloses)) as (Hwrites & _).
    cbn [session] in Hwrites. simpl in Hwrites.
    destruct (run_spec _ _ _ Ha) as (_ & (later & Hlater & _) & _).
    cbn [session] in Hlater. rewrite onConnected_spec in Hlater.
    revert Hlater. fields. intro Hlater.
    destruct (header_effects_flush s0) as (settings & Hhe & _).
    exists (trace s0 ++ settings)%list,
           (retry_effects s0 ++ [Emit "connected"] ++ later)%list.
    split.
    + rewrite Hlater, Hhe, <- !app_assoc. reflexivity.
    + rewrite writes_app, Hwrites.
      pose proof (proj1 (header_effects_quiet s0)) as Hq.
      rewrite Hhe, writes_app in Hq. now apply app_eq_nil in Hq.
Qed.

Lemma X2_response_head_set_once_witness :
  let o := options_with None None None None (Some 204%Z)
             (Some [("X-Accel-Buffering", Some "no"); ("Content-Type", Some "text/plain");
                    ("X-Empty", None)]) in
  exists w,
    run [Close; Tick; Call (CallComment None); Call (CallId None); Close]
        (construct string_serializer {| last_event_id := None |} o (fun _ => x00))
    = Some w
    /\ header_settings (trace (session w))
       = [("X-Accel-Buffering", "no"); ("Content-Type", "text/plain"); ("X-Empty", "");
          ("Content-Type", "text/event-stream");
          ("Cache-Control", "no-cache, no-transform");
          ("Connection", "keep-alive")]
    /\ status_settings (trace (session w)) = [204%Z]
    /\ flushes (trace (session w)) = 1.
Proof.
  intro o.
  destruct (X2_response_head_set_once string_serializer {| last_event_id := None |} o
              (fun _ => x00)
              [Close; Tick; Call (CallComment None); Call (CallId None); Close]
              _ eq_refl eq_refl) as (H1 & H2 & H3 & _).
  eexists. split; [reflexivity|]. split; [exact H1|]. split; [exact H2 | exact H3].
Defined.

(** ** The disconnected notification *)

Lemma run_disconnected (ins : list input) (w w' : World) :
  run ins w = Some w' ->
  emitted "disconnected" (trace (session w'))
  = emitted "disconnected" (trace (session w)) + closes ins.
Proof.
  revert w. induction ins as [|i ins IH]; intro w; simpl run.
  - intros [= <-]. simpl. lia.
  - destruct (exec i w) as [w1|] eqn:Hexec; [|discriminate]. intro Hrun.
    rewrite (IH _ Hrun).
    destruct (exec_added _ _ _ Hexec) as (added & Ht & Hi).
    rewrite Ht, emitted_app.
    destruct i as [ | |c].
    + destruct Hi as (_ & _ & ->). rewrite !emitted_app.
      rewrite (proj2 (header_effects_quiet (session w))).
      rewrite (emitted_writes _ _ (retry_effects_writes (session w))).
      simpl. lia.
    + destruct Hi as (_ & ->). simpl. lia.
    + destruct Hi as (_ & Hw). rewrite (emitted_writes _ _ Hw). simpl. lia.
Qed.

(** X1: the session emits the disconnected notification once for every
    [close] notification of the request and never otherwise: in every run the
    number emitted is the number of [close] notifications so far, whether or
    not the initialization has run and whatever the owner has called.  The
    listener is registered with [on], so a request that emitted [close]
    twice would be answered twice. *)
Theorem X1_disconnected_per_close (ds : SerializerFunction) (r : IncomingMessage)
    (o : SessionOptions) (tape : nat -> byte) (ins : list input) (w : World) :
  run ins (construct ds r o tape) = Some w ->
  emitted "disconnected" (trace (session w)) = closes ins.
Proof. intro Hrun. now rewrite (run_disconnected _ _ _ Hrun). Qed.

Lemma X1_disconnected_per_close_witness :
  exists w,
    run [Call (CallPush (VString "a") (VString "b")); Close; Tick; Call CallDispatch]
        (construct string_serializer {| last_event_id := None |} no_options (fun _ => x00))
    = Some w
    /\ emitted "disconnected" (trace (session w)) = 1.
Proof.
  eexists. split; [reflexivity|].
  exact (X1_disconnected_per_close string_serializer {| last_event_id := None |}
           no_options (fun _ => x00)
           [Call (CallPush (VString "a") (VString "b")); Close; Tick; Call CallDispatch]
           _ eq_refl).
Defined.

(** ** The wire format as an invariant *)

Lemma frame_dispatch (san : SanitizerFunction) : frame san NL.
Proof. now left. Qed.

Lemma frame_field (san : SanitizerFunction) (name value : string) :
  In name field_names -> frame san (name ++ ":" ++ san value ++ NL).
Proof. intro Hin. right. eauto. Qed.

Lemma writes_map_Write (texts : list string) : writes (map Write texts) = texts.
Proof. induction texts as [|t texts IH]; [reflexivity | simpl; now rewrite IH]. Qed.

Lemma field_name_listed (name : string) :
  name = "event" \/ name = "data" \/ name = "id" \/ name = "retry" \/ name = "" ->
  In name field_names.
Proof. unfold field_names. simpl. intuition. Qed.

Ltac field_frame name value :=
  apply Forall_cons;
  [ apply (frame_field _ name value); apply field_name_listed; tauto | ].

(** What a call writes is made of frames. *)
Lemma invoke_frames (c : call) (s : Session) :
  exists texts,
    trace (invoke c s) = (trace s ++ map Write texts)%list
    /\ Forall (frame (sanitize s)) texts.
Proof.
  destruct c as [ |type|d|i|time|text|e d]; simpl invoke.
  - exists [NL]. split; [reflexivity|].
    apply Forall_cons; [apply frame_dispatch | apply Forall_nil].
  - exists ["event:" ++ sanitize s type ++ NL]. split; [reflexivity|].
    field_frame "event" type. apply Forall_nil.
  - exists ["data:" ++ sanitize s (serialize s d) ++ NL]. split; [reflexivity|].
    field_frame "data" (serialize s d). apply Forall_nil.
  - exists ["id:" ++ sanitize s (match i with
                                 | Some x => if truthy_string x then x else ""
                                 | None => ""
                                 end) ++ NL].
    split; [reflexivity|].
    field_frame "id" (match i with
                      | Some x => if truthy_string x then x else ""
                      | None => ""
                      end).
    apply Forall_nil.
  - exists ["retry:" ++ sanitize s (number_toString time) ++ NL]. split; [reflexivity|].
    field_frame "retry" (number_toString time). apply Forall_nil.
  - exists [":" ++ sanitize s (match text with Some t => t | None => "" end) ++ NL].
    split; [reflexivity|].
    field_frame "" (match text with Some t => t | None => "" end). apply Forall_nil.
  - destruct (push e d s) as [s'|] eqn:Hpush.
    + destruct (push_arguments e d) as [[name raw]|] eqn:Hargs;
        [|rewrite (push_raises _ _ _ Hargs) in Hpush; discriminate].
      destruct (push_effects _ _ _ _ _ _ Hargs Hpush) as (Ht & _).
      exists ["event:" ++ sanitize s name ++ NL;
              "id:" ++ sanitize s (identifier_at s (drawn s)) ++ NL;
              "data:" ++ sanitize s (serialize s raw) ++ NL;
              NL].
      split; [exact Ht|].
      field_frame "event" name. field_frame "id" (identifier_at s (drawn s)).
      field_frame "data" (serialize s raw).
      apply Forall_cons; [apply frame_dispatch | apply Forall_nil].
    + exists []. split; [simpl; now rewrite app_nil_r | constructor].
Qed.

Lemma exec_frames (i : input) (w w' : World) :
  exec i w = Some w' ->
  Forall (frame (sanitize (session w))) (writes (trace (session w))) ->
  Forall (frame (sanitize (session w'))) (writes (trace (session w'))).
Proof.
  intros Hexec Hw.
  destruct (exec_spec _ _ _ Hexec) as ((_ & _ & Hsan & _) & _). rewrite Hsan.
  destruct i as [ | |c]; simpl in Hexec.
  - destruct (immediate w); [|discriminate]. injection Hexec as <-.
    cbn [session]. rewrite onConnected_spec. fields.
    rewrite !writes_app, (proj1 (header_effects_quiet (session w))).
    simpl. rewrite app_nil_r. apply Forall_app. split; [exact Hw|].
    unfold retry_effects. destruct (initialRetry (session w)) as [n|]; [|constructor].
    cbn [writes]. field_frame "retry" (number_toString n).
    apply Forall_cons; [apply frame_dispatch | apply Forall_nil].
  - injection Hexec as <-. cbn [session]. unfold onDisconnected, emit.
    rewrite trace_log, writes_app. simpl. now rewrite app_nil_r.
  - injection Hexec as <-. cbn [session].
    destruct (invoke_frames c (session w)) as (texts & Ht & Hf).
    rewrite Ht, writes_app, writes_map_Write. apply Forall_app. now split.
Qed.

Lemma run_frames (ins : list input) (w w' : World) :
  run ins w = Some w' ->
  Forall (frame (sanitize (session w))) (writes (trace (session w))) ->
  Forall (frame (sanitize (session w'))) (writes (trace (session w'))).
Proof.
  revert w. induction ins as [|i ins IH]; intros w; simpl run.
  - now intros [= <-].
  - destruct (exec i w) as [w1|] eqn:Hexec; [|discriminate].
    intros Hrun Hw. apply (IH _ Hrun). exact (exec_frames _ _ _ Hexec Hw).
Qed.

(** X3: everything a session ever writes to the body of the response is a
    frame: either the bare line feed of a dispatch, or a field line made of
    one of the five names event, data, id, retry and the empty name, a colon,
    a value as the session's sanitizer returned it, and a line feed.  This
    holds in every run, for every configuration and every sanitizer. *)
Theorem X3_body_is_frames (ds : SerializerFunction) (r : IncomingMessage)
    (o : SessionOptions) (tape : nat -> byte) (ins : list input) (w : World) :
  run ins (construct ds r o tape) = Some w ->
  Forall (frame (match opt_sanitizer o with Some f => f | None => Lib.sanitize end))
         (writes (trace (session w))).
Proof.
  intro Hrun.
  destruct (run_spec _ _ _ Hrun) as ((_ & _ & Hsan & _) & _). simpl in Hsan.
  rewrite <- Hsan. apply (run_frames _ _ _ Hrun). constructor.
Qed.

Lemma X3_body_is_frames_witness :
  exists w,
    run [Tick; Call (CallPush (VNumber 0) VUndefined); Call (CallComment (Some "keep"))]
        (construct string_serializer {| last_event_id := None |} no_options (fun _ => x00))
    = Some w
    /\ Forall (frame Lib.sanitize) (writes (trace (session w)))
    /\ List.length (writes (trace (session w))) = 7.
Proof.
  eexists. split; [reflexivity|]. split; [|reflexivity].
  exact (X3_body_is_frames string_serializer {| last_event_id := None |} no_options
           (fun _ => x00)
           [Tick; Call (CallPush (VNumber 0) VUndefined); Call (CallComment (Some "keep"))]
           _ eq_refl).
Defined.

(** ** The client's identifier when it is not trusted *)

Lemma invoke_with_req (r : IncomingMessage) (c : call) (s : Session) :
  invoke c (with_req r s) = with_req r (invoke c s).
Proof.
  destruct c as [ |type|d|i|time|text|e d]; try reflexivity.
  simpl invoke. unfold push.
  destruct (push_arguments e d) as [[name raw]|]; reflexivity.
Qed.

Lemma onConnected_with_req (r : IncomingMessage) (s : Session) :
  trustClientEventId s = false ->
  onConnected (with_req r s) = with_req r (onConnected s).
Proof.
  intro Htrust. rewrite !onConnected_spec.
  unfold with_req, initial_lastId, header_effects, retry_effects. fields.
  now rewrite Htrust.
Qed.

(** Two worlds that differ in the request only stay so, turn by turn, when
    the session does not trust the client's identifier. *)
Lemma run_with_req (r : IncomingMessage) (ins : list input) (w : World) :
  trustClientEventId (session w) = false ->
  run ins {| session := with_req r (session w); immediate := immediate w |}
  = option_map
      (fun w' => {| session := with_req r (session w'); immediate := immediate w' |})
      (run ins w).
Proof.
  revert w. induction ins as [|i ins IH]; intros w Htrust; [reflexivity|].
  simpl run.
  assert (Hstep : exec i {| session := with_req r (session w); immediate := immediate w |}
                  = option_map
                      (fun w' => {| session := with_req r (session w');
                                    immediate := immediate w' |})
                      (exec i w)).
  { destruct i as [ | |c]; simpl exec; cbn [session immediate].
    - destruct (immediate w); [|reflexivity]. simpl option_map. cbn [session immediate].
      now rewrite onConnected_with_req.
    - reflexivity.
    - simpl option_map. cbn [session immediate]. now rewrite invoke_with_req. }
  rewrite Hstep. destruct (exec i w) as [w1|] eqn:Hexec; [|reflexivity].
  simpl option_map. apply IH.
  destruct (exec_spec _ _ _ Hexec) as ((_ & _ & _ & Ht & _) & _). congruence.
Qed.

(** X4: when [trustClientEventId] is false the request's [last-event-id]
    header has no influence at all: two sessions built with the same options
    for two different requests, taken through the same turns, produce the
    same effects in the same order, hold the same [lastId], and are at the
    same point of their life. *)
Theorem X4_untrusted_header_ignored (ds : SerializerFunction)
    (r1 r2 : IncomingMessage) (o : SessionOptions) (tape : nat -> byte)
    (ins : list input) :
  opt_trustClientEventId o = Some false ->
  option_map observation (run ins (construct ds r1 o tape))
  = option_map observation (run ins (construct ds r2 o tape)).
Proof.
  intro Htrust.
  assert (Hc : construct ds r2 o tape
               = {| session := with_req r2 (session (construct ds r1 o tape));
                    immediate := immediate (construct ds r1 o tape) |})
    by reflexivity.
  rewrite Hc, run_with_req; [|simpl; now rewrite Htrust].
  destruct (run ins (construct ds r1 o tape)) as [w|]; reflexivity.
Qed.

Lemma X4_untrusted_header_ignored_witness :
  let o := options_with None None (Some false) None None None in
  let ins := [Tick; Call (CallPush (VString "hello") VUndefined)] in
  option_map observation
    (run ins (construct string_serializer {| last_event_id := Some "41" |} o (fun _ => x2a)))
  = option_map observation
      (run ins (construct string_serializer {| last_event_id := None |} o (fun _ => x2a)))
  /\ option_map (fun w => lastId (session w))
       (run [Tick] (construct string_serializer {| last_event_id := Some "41" |} o
                      (fun _ => x2a)))
     = Some "".
Proof.
  intros o ins. split; [|reflexivity].
  exact (X4_untrusted_header_ignored string_serializer {| last_event_id := Some "41" |}
           {| last_event_id := None |} o (fun _ => x2a) ins eq_refl).
Defined.

(** ** The [retry] option and the [retry] method *)

(** X5: the [retry] option is the call [retry(n).dispatch()] made at
    connection.  A session configured with the reconnection time [n] and a
    session configured with [null] on which the owner calls [retry(n)] and
    [dispatch()] as soon as the initialization has run send the same head
    and the same two body writes and hold the same [lastId]; the only
    difference is that the configured frame goes out before the connected
    notification and the called one after it. *)
Theorem X5_retry_option_is_retry_call (ds : SerializerFunction) (r : IncomingMessage)
    (ser : option SerializerFunction) (san : option SanitizerFunction)
    (trust : option bool) (status : option Z) (hdrs : option OutgoingHttpHeaders)
    (tape : nat -> byte) (n : Z) :
  let configured := options_with ser san trust (Some (Some n)) status hdrs in
  let silent := options_with ser san trust (Some None) status hdrs in
  let sanitizer := match san with Some f => f | None => Lib.sanitize end in
  let frames := [Write ("retry:" ++ sanitizer (number_toString n) ++ NL); Write NL] in
  exists w1 w2 head,
    run [Tick] (construct ds r configured tape) = Some w1
    /\ run [Tick; Call (CallRetry n); Call CallDispatch] (construct ds r silent tape)
       = Some w2
    /\ trace (session w1) = (head ++ frames ++ [Emit "connected"])%list
    /\ trace (session w2) = (head ++ [Emit "connected"] ++ frames)%list
    /\ writes head = []
    /\ writes (trace (session w1)) = writes (trace (session w2))
    /\ lastId (session w1) = lastId (session w2).
Proof.
  intros configured silent sanitizer frames.
  set (s1 := session (construct ds r configured tape)).
  set (s2 := session (construct ds r silent tape)).
  exists {| session := onConnected s1; immediate := false |},
         {| session := dispatch (retry n (onConnected s2)); immediate := false |},
         (header_effects s1).
  split; [reflexivity|]. split; [reflexivity|].
  cbn [session]. unfold dispatch, retry, writeField.
  rewrite !trace_log, !onConnected_spec. fields.
  assert (Hh : header_effects s2 = header_effects s1) by reflexivity.
  assert (Hr1 : retry_effects s1 = frames) by reflexivity.
  assert (Hr2 : retry_effects s2 = []) by reflexivity.
  assert (Ht1 : trace s1 = []) by reflexivity.
  assert (Ht2 : trace s2 = []) by reflexivity.
  assert (Hs2 : sanitize s2 = sanitizer) by reflexivity.
  rewrite Hh, Hr1, Hr2, Ht1, Ht2, Hs2.
  pose proof (proj1 (header_effects_quiet s1)) as Hq.
  split; [reflexivity|]. split; [cbn [app]; rewrite <- !app_assoc; reflexivity|].
  split; [exact Hq|]. split.
  - cbn [app]. rewrite !writes_app, Hq. reflexivity.
  - reflexivity.
Qed.

(** ** Lines on the wire *)

Lemma count_LF_app (a b : string) : count_LF (a ++ b) = count_LF a + count_LF b.
Proof. induction a as [|c a IH]; [reflexivity | simpl; rewrite IH; lia]. Qed.

Lemma ends_with_LF_app_r (a b : string) :
  ends_with_LF b = true -> ends_with_LF (a ++ b) = true.
Proof.
  intro Hb. induction a as [|c a IH]; [exact Hb|].
  simpl append. destruct (a ++ b) as [|c' rest]; [discriminate | exact IH].
Qed.

Lemma count_LF_none (a : string) : contains_LF a = false -> count_LF a = 0.
Proof.
  induction a as [|c a IH]; [reflexivity|]. simpl.
  intro H. apply orb_false_iff in H as [-> Ha]. now rewrite IH.
Qed.

(** A frame whose sanitized value holds no line feed is one line. *)
Lemma frame_one_line (san : SanitizerFunction) (text : string) :
  (forall v, contains_LF (san v) = false) ->
  frame san text -> count_LF text = 1 /\ ends_with_LF text = true.
Proof.
  intros Hsan [-> | (name & value & Hin & ->)]; [split; reflexivity|].
  split.
  - rewrite !count_LF_app, (count_LF_none _ (Hsan value)).
    unfold field_names in Hin. simpl in Hin.
    destruct Hin as [<- | [<- | [<- | [<- | [<- | []]]]]]; reflexivity.
  - do 3 (apply ends_with_LF_app_r). reflexivity.
Qed.

Lemma contains_CR_app (a b : string) :
  contains_CR (a ++ b) = contains_CR a || contains_CR b.
Proof.
  induction a as [|c a IH]; [reflexivity|].
  simpl. now rewrite IH, orb_assoc.
Qed.

(** A frame whose sanitized value holds no carriage return holds none. *)
Lemma frame_no_CR (san : SanitizerFunction) (text : string) :
  (forall v, contains_CR (san v) = false) ->
  frame san text -> contains_CR text = false.
Proof.
  intros Hsan [-> | (name & value & Hin & ->)]; [reflexivity|].
  rewrite !contains_CR_app, (Hsan value).
  unfold field_names in Hin. simpl in Hin.
  destruct Hin as [<- | [<- | [<- | [<- | [<- | []]]]]]; reflexivity.
Qed.

(** Without a carriage return, the line breaks of a text are its line
    feeds. *)
Lemma line_breaks_no_CR (text : string) :
  contains_CR text = false -> line_breaks text = count_LF text.
Proof.
  induction text as [|c text IH]; [reflexivity|].
  intro H. cbn [contains_CR] in H. apply orb_false_iff in H as [Hc Hrest].
  cbn [line_breaks count_LF]. rewrite Hc. rewrite (IH Hrest).
  destruct (is_LF c); reflexivity.
Qed.

(** X8: with a sanitizer that returns neither a line feed nor a carriage
    return, every write the session makes to the body, in every run, is
    exactly one line: it holds no carriage return and one line feed, which
    is its last character, so it holds one line break, at its end.  Each
    field is then one line on the wire and only a dispatch produces an empty
    one. *)
Theorem X8_one_line_per_write (ds : SerializerFunction) (r : IncomingMessage)
    (o : SessionOptions) (tape : nat -> byte) (san : SanitizerFunction)
    (ins : list input) (w : World) :
  opt_sanitizer o = Some san ->
  (forall v, contains_LF (san v) = false /\ contains_CR (san v) = false) ->
  run ins (construct ds r o tape) = Some w ->
  Forall (fun text =>
            contains_CR text = false
            /\ count_LF text = 1
            /\ line_breaks text = 1
            /\ ends_with_LF text = true)
         (writes (trace (session w))).
Proof.
  intros Ho Hsan Hrun.
  assert (Hf : Forall (frame (sanitize (session w))) (writes (trace (session w))))
    by (apply (run_frames _ _ _ Hrun); constructor).
  destruct (run_spec _ _ _ Hrun) as ((_ & _ & Hs & _) & _). simpl in Hs.
  rewrite Ho in Hs. rewrite Hs in Hf.
  eapply Forall_impl; [|exact Hf]. intros text Hframe.
  destruct (frame_one_line san text (fun v => proj1 (Hsan v)) Hframe) as (Hcount & Hend).
  pose proof (frame_no_CR san text (fun v => proj2 (Hsan v)) Hframe) as Hcr.
  split; [exact Hcr|]. split; [exact Hcount|].
  split; [now rewrite (line_breaks_no_CR _ Hcr) | exact Hend].
Qed.

Lemma X8_one_line_per_write_witness :
  let o := options_with None (Some (fun _ : string => "x")) None None None None in
  exists w,
    run [Tick; Call (CallData (VString "two"))]
        (construct string_serializer {| last_event_id := None |} o (fun _ => x00))
    = Some w
    /\ writes (trace (session w)) = ["retry:x" ++ NL; NL; "data:x" ++ NL]
    /\ Forall (fun text =>
                 contains_CR text = false
                 /\ count_LF text = 1
                 /\ line_breaks text = 1
                 /\ ends_with_LF text = true)
         (writes (trace (session w))).
Proof.
  intro o. eexists. split; [reflexivity|]. split; [reflexivity|].
  exact (X8_one_line_per_write string_serializer {| last_event_id := None |} o
           (fun _ => x00) (fun _ => "x") [Tick; Call (CallData (VString "two"))] _
           eq_refl (fun _ => conj eq_refl eq_refl) eq_refl).
Defined.

(** ** [push] with one argument *)

(** X7: a single truthy argument makes [push(x)] the same call as
    [push("message", x)]: the same result and the same session after it. *)
Theorem X7_push_one_argument (x : value) (s : Session) :
  truthy x = true ->
  push x VUndefined s = push (VString "message") x s.
Proof.
  intro Hx. unfold push, push_arguments. rewrite Hx.
  destruct x; simpl in Hx; try discriminate; reflexivity.
Qed.

Lemma X7_push_one_argument_witness :
  let s := new_Session string_serializer {| last_event_id := None |} no_options
             (fun _ => xab) in
  push (VNumber 5) VUndefined s = push (VString "message") (VNumber 5) s
  /\ option_map (fun s' => writes (trace s')) (push (VNumber 5) VUndefined s)
     = Some ["event:message" ++ NL; "id:abababab" ++ NL; "data:5" ++ NL; NL].
Proof.
  intro s. split; [|reflexivity].
  exact (X7_push_one_argument (VNumber 5) s eq_refl).
Defined.

(** ** [stream] and [push] *)

Lemma feed_push_each (ns : list notification) (st : Streaming) :
  target (feed ns st) = push_each (event_name st) (chunks_of ns) (target st).
Proof.
  revert st. induction ns as [|n ns IH]; intro st; [reflexivity|].
  change (feed (n :: ns) st) with (feed ns (notify n st)). rewrite IH.
  destruct n as [c| | |err]; simpl notify.
  - reflexivity.
  - now destruct (end_attached st).
  - now destruct (close_attached st).
  - now destruct (error_attached st).
Qed.

(** X6: streaming is pushing.  Whatever the producer emits, the session
    after the notifications is, field for field, the session on which the
    owner had called [push(type, text)] once for every chunk, in emission
    order, the type being the [event] option or stream when it is left out
    (an empty name given as the option is kept); end, close and error leave
    the session as it is, so a producer that emits no chunk leaves it
    untouched. *)
Theorem X6_stream_is_push_each (s : Session) (options : StreamOptions)
    (ns : list notification) :
  let type := match opt_event options with Some e => e | None => "stream" end in
  target (feed ns (stream options s)) = push_each type (chunks_of ns) s
  /\ (forall c rest,
        push_each type (c :: rest) s
        = push_each type rest
            (invoke (CallPush (VString type) (VString (chunk_text c))) s))
  /\ push_each type [] s = s.
Proof.
  intro type. split; [apply feed_push_each|]. split; reflexivity.
Qed.

(** ** The session does not look at the connection *)

Lemma retrace_own (s : Session) : retrace (trace s) s = s.
Proof. now destruct s. Qed.

Lemma retrace_retrace (t u : list effect) (s : Session) :
  retrace t (retrace u s) = retrace t s.
Proof. reflexivity. Qed.

Lemma without_disconnected_app (t u : list effect) :
  without_disconnected (t ++ u)
  = (without_disconnected t ++ without_disconnected u)%list.
Proof.
  induction t as [|a t IH]; [reflexivity|].
  destruct a; simpl; rewrite ?IH; try reflexivity.
  now destruct (String.eqb name "disconnected").
Qed.

(** The session a [push] that went through returns, field by field. *)
Lemma push_mk (eventOrData dat : value) (s : Session)
    (eventName : string) (rawData : value) :
  push_arguments eventOrData dat = Some (eventName, rawData) ->
  push eventOrData dat s
  = Some (mkSession (identifier_at s (drawn s)) (req s) (serialize s) (sanitize s)
            (trustClientEventId s) (initialRetry s) (statusCode s) (headers s)
            (trace s ++ pushed_event s eventName (identifier_at s (drawn s)) rawData)
            (entropy s) (drawn s + 4)).
Proof.
  intro Hargs. pose proof (push_resolved _ _ s _ _ Hargs) as Hp.
  destruct (push_effects _ _ _ _ _ _ Hargs Hp)
    as (Ht & Hl & Hd & Hsan & Hser & Hent & Hreq & Htr & Hir & Hsc & Hh).
  rewrite Hp. f_equal.
  set (s' := dispatch _) in *. clearbody s'.
  destruct s' as [l' r' ser' san' tr' ir' sc' hs' t' en' dr'].
  cbn [lastId req serialize sanitize trustClientEventId initialRetry statusCode
       headers trace entropy drawn] in *.
  congruence.
Qed.

(** What a call appends does not depend on the trace it is appended to. *)
Lemma invoke_retrace (c : call) (s : Session) :
  exists added,
    forall t, invoke c (retrace t s) = retrace (t ++ added) (invoke c s).
Proof.
  destruct c as [ |type|d|i|time|text|e d]; simpl invoke.
  - exists [Write NL]. reflexivity.
  - exists [Write ("event:" ++ sanitize s type ++ NL)]. reflexivity.
  - exists [Write ("data:" ++ sanitize s (serialize s d) ++ NL)]. reflexivity.
  - exists [Write ("id:" ++ sanitize s (match i with
                                        | Some x => if truthy_string x then x else ""
                                        | None => ""
                                        end) ++ NL)].
    reflexivity.
  - exists [Write ("retry:" ++ sanitize s (number_toString time) ++ NL)]. reflexivity.
  - exists [Write (":" ++ sanitize s (match text with Some x => x | None => "" end)
                   ++ NL)].
    reflexivity.
  - destruct (push_arguments e d) as [[name raw]|] eqn:Hargs.
    + exists (pushed_event s name (identifier_at s (drawn s)) raw). intro t.
      rewrite (push_mk _ _ s _ _ Hargs), (push_mk _ _ (retrace t s) _ _ Hargs).
      reflexivity.
    + exists []. intro t. rewrite !(push_raises _ _ _ Hargs). now rewrite app_nil_r.
Qed.

Lemma onConnected_retrace (t : list effect) (s : Session) :
  onConnected (retrace t s)
  = retrace (t ++ header_effects s ++ retry_effects s ++ [Emit "connected"])
      (onConnected s).
Proof. rewrite !onConnected_spec. reflexivity. Qed.

Lemma retrace_eq (s v : Session) :
  retrace [] v = retrace [] s -> v = retrace (trace v) s.
Proof.
  intro H. rewrite <- (retrace_own v) at 1.
  rewrite <- (retrace_retrace (trace v) [] v), H. reflexivity.
Qed.

Lemma trace_retrace (t : list effect) (s : Session) : trace (retrace t s) = t.
Proof. reflexivity. Qed.

(** A turn that is not a [close], on a session and on the same session with
    another trace: the same effects are appended and the same state is
    reached. *)
Lemma turn_retrace (i : input) (w w' : World) (t : list effect) :
  i <> Close ->
  exec i w = Some w' ->
  exists added,
    trace (session w') = (trace (session w) ++ added)%list
    /\ exec i {| session := retrace t (session w); immediate := immediate w |}
       = Some {| session := retrace (t ++ added) (session w');
                 immediate := immediate w' |}.
Proof.
  intros Hi Hexec. destruct i as [ | |c]; [| now elim Hi |]; simpl in Hexec |- *.
  - cbn [immediate session]. destruct (immediate w); [|discriminate].
    injection Hexec as <-. cbn [session immediate].
    exists (header_effects (session w) ++ retry_effects (session w)
            ++ [Emit "connected"])%list.
    split; [now rewrite onConnected_spec|]. now rewrite onConnected_retrace.
  - injection Hexec as <-. cbn [session immediate].
    destruct (invoke_retrace c (session w)) as (added & Hadd).
    exists added. split.
    + pose proof (Hadd (trace (session w))) as H. rewrite retrace_own in H.
      rewrite H at 1. apply trace_retrace.
    + now rewrite Hadd.
Qed.

(** One turn of a session and of the same session with other notifications
    in its past: a [close] is a turn of the first only. *)
Lemma exec_without_closes (i : input) (w w' v : World) :
  immediate v = immediate w ->
  retrace [] (session v) = retrace [] (session w) ->
  without_disconnected (trace (session v)) = without_disconnected (trace (session w)) ->
  exec i w = Some w' ->
  exists v',
    run (drop_closes [i]) v = Some v'
    /\ immediate v' = immediate w'
    /\ retrace [] (session v') = retrace [] (session w')
    /\ without_disconnected (trace (session v'))
       = without_disconnected (trace (session w')).
Proof.
  intros Him Hs Ht Hexec.
  assert (Hclose : i = Close \/ i <> Close)
    by (destruct i; [right; discriminate | now left | right; discriminate]).
  destruct Hclose as [-> | Hi].
  - simpl in Hexec. injection Hexec as <-. exists v. cbn [session immediate].
    split; [reflexivity|]. split; [exact Him|]. split; [exact Hs|].
    unfold onDisconnected, emit. rewrite trace_log, without_disconnected_app.
    simpl. now rewrite app_nil_r.
  - destruct (turn_retrace i w w' (trace (session v)) Hi Hexec) as (added & Hadd & Hstep).
    assert (Hv : v = {| session := retrace (trace (session v)) (session w);
                        immediate := immediate w |}).
    { destruct v as [sv iv]. cbn [session immediate] in *. subst iv. f_equal.
      now apply retrace_eq. }
    rewrite <- Hv in Hstep.
    eexists. split.
    + replace (drop_closes [i]) with [i] by (destruct i; [reflexivity | now elim Hi | reflexivity]).
      simpl run. rewrite Hstep. reflexivity.
    + cbn [session immediate]. split; [reflexivity|].
      split; [apply retrace_retrace|].
      rewrite trace_retrace, Hadd, !without_disconnected_app. now rewrite Ht.
Qed.

Lemma run_without_closes (ins : list input) (w w' v : World) :
  immediate v = immediate w ->
  retrace [] (session v) = retrace [] (session w) ->
  without_disconnected (trace (session v)) = without_disconnected (trace (session w)) ->
  run ins w = Some w' ->
  exists v',
    run (drop_closes ins) v = Some v'
    /\ immediate v' = immediate w'
    /\ retrace [] (session v') = retrace [] (session w')
    /\ without_disconnected (trace (session v'))
       = without_disconnected (trace (session w')).
Proof.
  revert w v. induction ins as [|i ins IH]; intros w v Him Hs Ht Hrun.
  - simpl in Hrun. injection Hrun as <-. exists v. auto.
  - simpl in Hrun. destruct (exec i w) as [w1|] eqn:Hexec; [|discriminate].
    destruct (exec_without_closes _ _ _ _ Him Hs Ht Hexec) as (v1 & Hv1 & Him1 & Hs1 & Ht1).
    destruct (IH _ _ Him1 Hs1 Ht1 Hrun) as (v' & Hv' & Hrest).
    exists v'. split; [|exact Hrest].
    replace (drop_closes (i :: ins)) with (drop_closes [i] ++ drop_closes ins)%list
      by (destruct i; reflexivity).
    now rewrite run_app, Hv1.
Qed.

Lemma closes_drop_closes (ins : list input) : closes (drop_closes ins) = 0.
Proof. induction ins as [|i ins IH]; [reflexivity | destruct i; exact IH]. Qed.

Lemma without_disconnected_none (t : list effect) :
  emitted "disconnected" t = 0 -> without_disconnected t = t.
Proof.
  induction t as [|a t IH]; [reflexivity|].
  destruct a; simpl; try (intro H; now rewrite IH).
  destruct (String.eqb name "disconnected"); [discriminate|].
  intro H. now rewrite IH.
Qed.

Lemma writes_without_disconnected (t : list effect) :
  writes (without_disconnected t) = writes t.
Proof.
  induction t as [|a t IH]; [reflexivity|].
  destruct a; simpl; rewrite ?IH; try reflexivity.
  destruct (String.eqb name "disconnected"); simpl; exact IH.
Qed.

(** X10: the session never looks at whether the client is still there.  The
    [close] notifications of a run add the disconnected notifications to the
    trace and change nothing else: taken without them, the same turns are
    possible and leave the same trace apart from those notifications, hence
    the same body writes in the same order, the same [lastId], the same
    number of random bytes drawn, and the initialization run or due alike.
    In particular every call after a [close] still writes to the response. *)
Theorem X10_close_changes_nothing_else (ds : SerializerFunction)
    (r : IncomingMessage) (o : SessionOptions) (tape : nat -> byte)
    (ins : list input) (w : World) :
  run ins (construct ds r o tape) = Some w ->
  exists v,
    run (drop_closes ins) (construct ds r o tape) = Some v
    /\ without_disconnected (trace (session w)) = trace (session v)
    /\ writes (trace (session w)) = writes (trace (session v))
    /\ lastId (session w) = lastId (session v)
    /\ drawn (session w) = drawn (session v)
    /\ immediate w = immediate v.
Proof.
  intro Hrun.
  destruct (run_without_closes ins _ _ (construct ds r o tape) eq_refl eq_refl eq_refl Hrun)
    as (v & Hv & Him & Hs & Ht).
  pose proof (run_disconnected _ _ _ Hv) as Hd.
  rewrite closes_drop_closes in Hd. simpl in Hd.
  rewrite (without_disconnected_none _ Hd) in Ht.
  exists v. split; [exact Hv|]. split; [now symmetry|].
  split; [now rewrite <- (writes_without_disconnected (trace (session w))), <- Ht|].
  split; [exact (eq_sym (f_equal lastId Hs))|].
  split; [exact (eq_sym (f_equal drawn Hs)) | now symmetry].
Qed.

Lemma X10_close_changes_nothing_else_witness :
  let w0 := construct string_serializer {| last_event_id := None |} no_options
              (fun _ => x00) in
  exists w v,
    run [Tick; Close; Call (CallComment (Some "still here"))] w0 = Some w
    /\ run [Tick; Call (CallComment (Some "still here"))] w0 = Some v
    /\ writes (trace (session w)) = writes (trace (session v))
    /\ writes (trace (session w)) = ["retry:2000" ++ NL; NL; ":still here" ++ NL].
Proof.
  intro w0.
  destruct (X10_close_changes_nothing_else string_serializer {| last_event_id := None |}
              no_options (fun _ => x00)
              [Tick; Close; Call (CallComment (Some "still here"))] _ eq_refl)
    as (v & Hv & _ & Hw & _).
  eexists. exists v. split; [reflexivity|]. split; [exact Hv|].
  split; [exact Hw | reflexivity].
Defined.

(** ** [lastId] after a stream *)

Lemma invoke_push_stream (type text : string) (s : Session) :
  invoke (CallPush (VString type) (VString text)) s
  = mkSession (identifier_at s (drawn s)) (req s) (serialize s) (sanitize s)
      (trustClientEventId s) (initialRetry s) (statusCode s) (headers s)
      (trace s ++ pushed_event s type (identifier_at s (drawn s)) (VString text))
      (entropy s) (drawn s + 4).
Proof.
  simpl invoke. now rewrite (push_mk _ _ s _ _ (push_arguments_stream type text)).
Qed.

Lemma push_each_app (type : string) (cs ds : list chunk) (s : Session) :
  push_each type (cs ++ ds) s = push_each type ds (push_each type cs s).
Proof. unfold push_each. apply fold_left_app. Qed.

Lemma push_each_draws (type : string) (cs : list chunk) (s : Session) :
  drawn (push_each type cs s) = drawn s + 4 * List.length cs
  /\ entropy (push_each type cs s) = entropy s.
Proof.
  revert s. induction cs as [|c cs IH]; intro s; [simpl; split; [lia | reflexivity]|].
  change (push_each type (c :: cs) s)
    with (push_each type cs (invoke (CallPush (VString type) (VString (chunk_text c))) s)).
  destruct (IH (invoke (CallPush (VString type) (VString (chunk_text c))) s)) as [Hd He].
  rewrite Hd, He, invoke_push_stream. fields. cbn [List.length]. split; [lia | reflexivity].
Qed.

Lemma push_each_lastId (type : string) (cs : list chunk) (c : chunk) (s : Session) :
  lastId (push_each type (cs ++ [c]) s) = identifier_at s (drawn s + 4 * List.length cs).
Proof.
  rewrite push_each_app.
  change (push_each type [c] (push_each type cs s))
    with (invoke (CallPush (VString type) (VString (chunk_text c))) (push_each type cs s)).
  rewrite invoke_push_stream. fields.
  destruct (push_each_draws type cs s) as [Hd He].
  unfold identifier_at. now rewrite Hd, He.
Qed.

(** X9: a stream takes [lastId] with it.  After any sequence of
    notifications of the producer, [lastId] is what it was if no chunk has
    come, and otherwise the identifier of the event of the last chunk: the
    eight hexadecimal digits of the four random bytes drawn for it, each
    chunk drawing four bytes in turn.  Whatever identifier the owner had set
    with [id] is gone after the first chunk. *)
Theorem X9_stream_lastId (s : Session) (options : StreamOptions)
    (ns : list notification) :
  let after := target (feed ns (stream options s)) in
  let k := List.length (chunks_of ns) in
  drawn after = drawn s + 4 * k
  /\ lastId after
     = match k with
       | O => lastId s
       | S j => identifier_at s (drawn s + 4 * j)
       end
  /\ match k with
     | O => True
     | S _ => Hex.matches_hex8 (lastId after) = true
     end.
Proof.
  intros after k. unfold after, k. rewrite feed_push_each. cbn [stream event_name target].
  set (type := match opt_event options with Some e => e | None => "stream" end).
  split; [apply push_each_draws|].
  destruct (chunks_of ns) as [|c cs] using rev_ind; [repeat split|].
  rewrite length_app, Nat.add_comm. cbn [List.length plus].
  rewrite push_each_lastId. split; [reflexivity | apply identifier_at_matches].
Qed.
